(** * inventory-manager: persistence layer and backup pruning

    A shallow embedding of [inventory_manager/db.py] (schema),
    [inventory_manager/repositories.py] (repository layer) and
    [inventory_manager/backup.py] (backup pruning).

    The SQLite store is a record of finite maps, one per table, keyed by the
    table's primary key.  Every SQL statement the repositories execute is a
    function on that record which either yields the new store or raises the
    exception the [sqlite3] binding raises.  Each statement is atomic: a
    statement that fails leaves the store as it was, and every repository
    method commits right after its statement, so no transaction is ever left
    half way.  [PRAGMA foreign_keys = ON] is set on the connection
    ([DatabaseManager._create_connection]), hence foreign keys are enforced.

    Text is modelled as [string], the bytes of its UTF-8 encoding, which is
    what the [sqlite3] binding hands to the engine; SQLite's BINARY
    collation compares such strings byte by byte.

    The user interface, the configuration and the timer and thread of
    [BackupManager] are outside this file; of a backup only its effect on the
    backup directory is kept. *)

From Stdlib Require Import ZArith NArith Lia Ascii String.
From stdpp Require Import base option list gmap sets strings sorting.

Local Open Scope string_scope.
Local Open Scope Z_scope.

(** ** Text: decimal formatting, wildcards, ordering *)

Module Text.

(** The character of one decimal digit, ['0'] + d. *)
Definition digit (d : N) : ascii := ascii_of_N (48 + d).

Definition is_digit (c : ascii) : bool :=
  ((48 <=? N_of_ascii c) && (N_of_ascii c <=? 57))%N.

(** [str(n)] for a non-negative integer: the digits are produced from the
    least significant one.  The fuel is the bit length of [n], which is at
    least its number of decimal digits. *)
Fixpoint decimal_go (fuel : nat) (n : N) (acc : list ascii) : list ascii :=
  match fuel with
  | O => acc
  | S fuel' =>
      let acc' := digit (n mod 10) :: acc in
      if (n / 10 =? 0)%N then acc' else decimal_go fuel' (n / 10) acc'
  end.

Definition decimal (n : N) : list ascii := decimal_go (S (N.size_nat n)) n [].

(** The format spec [0{width}d] on a non-negative integer, as in
    [f"{n:08d}"] and in [strftime]'s zero padded fields: the decimal
    digits, padded on the left with zeros up to a minimum width. *)
Definition zero_pad (width : nat) (s : list ascii) : list ascii :=
  replicate (width - length s) "0"%char ++ s.

Definition format_0d (width : nat) (n : N) : string :=
  string_of_list_ascii (zero_pad width (decimal n)).

(** [str(z)] for any integer. *)
Definition str_of_int (z : Z) : string :=
  match z with
  | Zneg p => String "-"%char (string_of_list_ascii (decimal (Npos p)))
  | _ => string_of_list_ascii (decimal (Z.to_N z))
  end.

(** The [width] low decimal digits of [n]; what [format_0d width n] is
    whenever [n < 10 ^ width]. *)
Fixpoint fixed (width : nat) (n : N) : list ascii :=
  match width with
  | O => []
  | S w => fixed w (n / 10) ++ [digit (n mod 10)]
  end.

(** A string of exactly [k] decimal digits. *)
Definition digits_only (k : nat) (s : string) : bool :=
  (length (list_ascii_of_string s) =? k)%nat
  && forallb is_digit (list_ascii_of_string s).

(** ASCII case folding, as SQLite's [LIKE] does it. *)
Definition upper_char (c : ascii) : ascii :=
  let n := N_of_ascii c in
  if ((97 <=? n) && (n <=? 122))%N then ascii_of_N (n - 32) else c.

Definition lower_char (c : ascii) : ascii :=
  let n := N_of_ascii c in
  if ((65 <=? n) && (n <=? 90))%N then ascii_of_N (n + 32) else c.

Definition byte_is (n : N) (c : ascii) : bool := (N_of_ascii c =? n)%N.

(** [str.upper()] on UTF-8 text, as far as a comparison of its result
    with an ASCII word goes.  Besides the ASCII letters, ten characters
    have an upper case made of ASCII letters only: U+00DF (SS), U+0131
    (I), U+017F (S) and the ligatures U+FB00 to U+FB06 (FF, FI, FL, FFI,
    FFL, ST, ST).  The upper case of every other character has a
    character outside ASCII in it; such a character is left as it is
    here, which keeps the result outside ASCII just the same.  Hence
    [upper s] is an ASCII word [u] exactly when [s.upper() == u]. *)
Fixpoint upper (s : string) : string :=
  match s with
  | EmptyString => EmptyString
  | String c1 s1 =>
      let plain := String (upper_char c1) (upper s1) in
      match s1 with
      | EmptyString => plain
      | String c2 s2 =>
          if byte_is 195 c1 && byte_is 159 c2 then "SS" +:+ upper s2
          else if byte_is 196 c1 && byte_is 177 c2 then "I" +:+ upper s2
          else if byte_is 197 c1 && byte_is 191 c2 then "S" +:+ upper s2
          else if byte_is 239 c1 && byte_is 172 c2 then
            match s2 with
            | EmptyString => plain
            | String c3 s3 =>
                if byte_is 128 c3 then "FF" +:+ upper s3
                else if byte_is 129 c3 then "FI" +:+ upper s3
                else if byte_is 130 c3 then "FL" +:+ upper s3
                else if byte_is 131 c3 then "FFI" +:+ upper s3
                else if byte_is 132 c3 then "FFL" +:+ upper s3
                else if byte_is 133 c3 then "ST" +:+ upper s3
                else if byte_is 134 c3 then "ST" +:+ upper s3
                else plain
            end
          else plain
      end
  end.

(** [str.lower()] likewise.  Besides the ASCII letters only U+212A, the
    Kelvin sign, has a lower case made of ASCII letters (k). *)
Fixpoint lower (s : string) : string :=
  match s with
  | EmptyString => EmptyString
  | String c1 s1 =>
      let plain := String (lower_char c1) (lower s1) in
      match s1 with
      | String c2 (String c3 s3) =>
          if byte_is 226 c1 && byte_is 132 c2 && byte_is 170 c3
          then "k" +:+ lower s3
          else plain
      | _ => plain
      end
  end.

(** Wildcard matching with a many-characters wildcard [many], a
    one-character wildcard [one] and a character equality [same]:
    [fnmatch] on a POSIX file system is ['*'], ['?'], equality (its
    bracketed character classes are left out: the one pattern the program
    uses has none, and no ['?'] either). *)
Section Wildcards.
Variables (many one : ascii) (same : ascii -> ascii -> bool).

Fixpoint wild (p s : list ascii) : bool :=
  match p with
  | [] => match s with [] => true | _ => false end
  | c :: p' =>
      if Ascii.eqb c many then
        (fix skip (s : list ascii) : bool :=
           wild p' s || match s with [] => false | _ :: s' => skip s' end) s
      else
        match s with
        | [] => false
        | d :: s' =>
            (if Ascii.eqb c one then true else same c d) && wild p' s'
        end
  end.
End Wildcards.

Definition fnmatch (name pattern : string) : bool :=
  wild "*"%char "?"%char Ascii.eqb
    (list_ascii_of_string pattern) (list_ascii_of_string name).

(** *** SQLite's [LIKE]

    The engine's [patternCompare], with ['%'] and ['_'] and no escape
    character, reads its two operands as NUL-terminated UTF-8 text, one
    character at a time: a byte, together with the continuation bytes
    (10xxxxxx) that follow it when it is a lead byte (11xxxxxx).  ['_']
    stands for one character, ['%'] for any number of characters, and any
    other character for itself, upper and lower case being the same for
    the letters of ASCII and for no others. *)
Definition is_lead (c : ascii) : bool := (192 <=? N_of_ascii c)%N.

Definition is_continuation (c : ascii) : bool :=
  ((128 <=? N_of_ascii c) && (N_of_ascii c <? 192))%N.

Fixpoint skip_continuation (s : list ascii) : list ascii :=
  match s with
  | c :: s' => if is_continuation c then skip_continuation s' else s
  | [] => []
  end.

(** What is left of [s] after its first character. *)
Definition after_char (d : ascii) (s' : list ascii) : list ascii :=
  if is_lead d then skip_continuation s' else s'.

(** A C string ends at its first NUL byte. *)
Fixpoint until_nul (s : list ascii) : list ascii :=
  match s with
  | c :: s' => if byte_is 0 c then [] else c :: until_nul s'
  | [] => []
  end.

(** In the loop of ['%'], [inside] tells whether the bytes read so far
    end in the middle of a character; the rest of the pattern is tried
    where a character begins. *)
Fixpoint like_chars (p s : list ascii) : bool :=
  match p with
  | [] => match s with [] => true | _ => false end
  | c :: p' =>
      if Ascii.eqb c "%" then
        (fix skip (inside : bool) (s : list ascii) : bool :=
           match s with
           | [] => like_chars p' []
           | d :: s' =>
               if inside && is_continuation d then skip true s'
               else like_chars p' s || skip (is_lead d) s'
           end) false s
      else
        match s with
        | [] => false
        | d :: s' =>
            if Ascii.eqb c "_" then like_chars p' (after_char d s')
            else Ascii.eqb (upper_char c) (upper_char d) && like_chars p' s'
        end
  end.


Definition like (pattern text : string) : bool :=
  like_chars (until_nul (list_ascii_of_string pattern))
             (until_nul (list_ascii_of_string text)).

(** [f"%{value}%"] *)
Definition contains_pattern (value : string) : string := "%" +:+ value +:+ "%".

End Text.

(** ** Wall-clock time ([datetime]) *)

Module Time.

(** A naive [datetime.datetime] value. *)
Record datetime := mk {
  year : N; month : N; day : N;
  hour : N; minute : N; second : N;
  microsecond : N
}.

(** The ranges [datetime] guarantees for its fields, from the year 1000 on:
    for earlier years the C library decides whether [%Y] is padded to four
    digits, and the lemmas on [strftime_compact] leave them out. *)
Definition valid (d : datetime) : Prop :=
  (1000 <= year d <= 9999 /\ 1 <= month d <= 12 /\ 1 <= day d <= 31
   /\ hour d <= 23 /\ minute d <= 59 /\ second d <= 59
   /\ microsecond d <= 999999)%N.

(** [d.replace(microsecond=0)] *)
Definition replace_microsecond (us : N) (d : datetime) : datetime :=
  mk (year d) (month d) (day d) (hour d) (minute d) (second d) us.

(** [d.isoformat()]: [YYYY-MM-DDTHH:MM:SS], followed by the fraction only
    when the microsecond field is not zero. *)
Definition isoformat (d : datetime) : string :=
  Text.format_0d 4 (year d) +:+ "-" +:+ Text.format_0d 2 (month d) +:+ "-"
  +:+ Text.format_0d 2 (day d) +:+ "T" +:+ Text.format_0d 2 (hour d) +:+ ":"
  +:+ Text.format_0d 2 (minute d) +:+ ":" +:+ Text.format_0d 2 (second d)
  +:+ (if (microsecond d =? 0)%N then ""
       else "." +:+ Text.format_0d 6 (microsecond d)).

(** [d.strftime("%Y%m%d_%H%M%S")] *)
Definition strftime_compact (d : datetime) : string :=
  Text.format_0d 4 (year d) +:+ Text.format_0d 2 (month d)
  +:+ Text.format_0d 2 (day d) +:+ "_" +:+ Text.format_0d 2 (hour d)
  +:+ Text.format_0d 2 (minute d) +:+ Text.format_0d 2 (second d).

(** Chronological order down to the second, as one number. *)
Definition seconds_key (d : datetime) : N :=
  (((((year d * 100 + month d) * 100 + day d) * 100 + hour d) * 100
    + minute d) * 100 + second d)%N.

End Time.

(** ** Entities ([repositories.py] dataclasses, [db.py] columns) *)

Module Vehicle.
Record t := mk {
  vehicle_id : string;
  vehicle_type : string;
  vehicle_name : string;
  vin : string;
  vehicle_number : Z;
  mileage : Z;
  last_service : Z;
  created_at : string;
  updated_at : string
}.

Definition set_vehicle_type (x : string) (v : t) : t :=
  mk (vehicle_id v) x (vehicle_name v) (vin v) (vehicle_number v)
     (mileage v) (last_service v) (created_at v) (updated_at v).
Definition set_vehicle_name (x : string) (v : t) : t :=
  mk (vehicle_id v) (vehicle_type v) x (vin v) (vehicle_number v)
     (mileage v) (last_service v) (created_at v) (updated_at v).
Definition set_vin (x : string) (v : t) : t :=
  mk (vehicle_id v) (vehicle_type v) (vehicle_name v) x (vehicle_number v)
     (mileage v) (last_service v) (created_at v) (updated_at v).
Definition set_vehicle_number (x : Z) (v : t) : t :=
  mk (vehicle_id v) (vehicle_type v) (vehicle_name v) (vin v) x
     (mileage v) (last_service v) (created_at v) (updated_at v).
Definition set_mileage (x : Z) (v : t) : t :=
  mk (vehicle_id v) (vehicle_type v) (vehicle_name v) (vin v)
     (vehicle_number v) x (last_service v) (created_at v) (updated_at v).
Definition set_last_service (x : Z) (v : t) : t :=
  mk (vehicle_id v) (vehicle_type v) (vehicle_name v) (vin v)
     (vehicle_number v) (mileage v) x (created_at v) (updated_at v).
Definition set_updated_at (x : string) (v : t) : t :=
  mk (vehicle_id v) (vehicle_type v) (vehicle_name v) (vin v)
     (vehicle_number v) (mileage v) (last_service v) (created_at v) x.
End Vehicle.

Module Location.
Record t := mk {
  location_id : string;
  vehicle_id : option string;
  side : string;
  row : Z;
  bin : Z;
  created_at : string;
  updated_at : string;
  last_audited_at : option string
}.

Definition set_vehicle_id (x : option string) (l : t) : t :=
  mk (location_id l) x (side l) (row l) (bin l)
     (created_at l) (updated_at l) (last_audited_at l).
Definition set_side (x : string) (l : t) : t :=
  mk (location_id l) (vehicle_id l) x (row l) (bin l)
     (created_at l) (updated_at l) (last_audited_at l).
Definition set_row (x : Z) (l : t) : t :=
  mk (location_id l) (vehicle_id l) (side l) x (bin l)
     (created_at l) (updated_at l) (last_audited_at l).
Definition set_bin (x : Z) (l : t) : t :=
  mk (location_id l) (vehicle_id l) (side l) (row l) x
     (created_at l) (updated_at l) (last_audited_at l).
Definition set_updated_at (x : string) (l : t) : t :=
  mk (location_id l) (vehicle_id l) (side l) (row l) (bin l)
     (created_at l) x (last_audited_at l).
Definition set_last_audited_at (x : option string) (l : t) : t :=
  mk (location_id l) (vehicle_id l) (side l) (row l) (bin l)
     (created_at l) (updated_at l) x.
End Location.

Module InventoryItem.
Record t := mk {
  asset_id : string;
  description : string;
  location_id : string;
  consumable : Z;
  manufacturer : option string;
  model : option string;
  serial_number : option string;
  created_at : string;
  updated_at : string
}.

Definition set_description (x : string) (i : t) : t :=
  mk (asset_id i) x (location_id i) (consumable i) (manufacturer i)
     (model i) (serial_number i) (created_at i) (updated_at i).
Definition set_location_id (x : string) (i : t) : t :=
  mk (asset_id i) (description i) x (consumable i) (manufacturer i)
     (model i) (serial_number i) (created_at i) (updated_at i).
Definition set_consumable (x : Z) (i : t) : t :=
  mk (asset_id i) (description i) (location_id i) x (manufacturer i)
     (model i) (serial_number i) (created_at i) (updated_at i).
Definition set_manufacturer (x : option string) (i : t) : t :=
  mk (asset_id i) (description i) (location_id i) (consumable i) x
     (model i) (serial_number i) (created_at i) (updated_at i).
Definition set_model (x : option string) (i : t) : t :=
  mk (asset_id i) (description i) (location_id i) (consumable i)
     (manufacturer i) x (serial_number i) (created_at i) (updated_at i).
Definition set_serial_number (x : option string) (i : t) : t :=
  mk (asset_id i) (description i) (location_id i) (consumable i)
     (manufacturer i) (model i) x (created_at i) (updated_at i).
Definition set_updated_at (x : string) (i : t) : t :=
  mk (asset_id i) (description i) (location_id i) (consumable i)
     (manufacturer i) (model i) (serial_number i) (created_at i) x.
End InventoryItem.

(** A row of [InventoryAudit]. *)
Module Audit.
Record t := mk {
  audit_id : Z;
  asset_id : string;
  from_location_id : option string;
  to_location_id : option string;
  action : string;
  notes : option string;
  audited_at : string;
  user : option string
}.
End Audit.

(** ** The store: tables, constraints and SQL statements ([db.py]) *)

Module Store.

(** The constraint an [sqlite3.IntegrityError] reports.  NOT NULL is not
    listed: every NOT NULL column is bound from a parameter whose Python
    type has no [None]. *)
Inductive rule := PrimaryKey | Unique | ForeignKey | Check.

(** What [Connection.execute] raises: [sqlite3.IntegrityError] from the
    engine, [OverflowError] from the binding when a Python [int] does not
    fit SQLite's 64-bit INTEGER. *)
Inductive exn := IntegrityError (r : rule) | OverflowError.

Record db := mk {
  GlobalId : gset string;
  Vehicle : gmap string Vehicle.t;
  Location : gmap string Location.t;
  Inventory : gmap string InventoryItem.t;
  InventoryAudit : gmap Z Audit.t;
  (** the [sqlite_sequence] entry kept for [audit_id AUTOINCREMENT] *)
  audit_seq : Z
}.

Definition empty : db := mk ∅ ∅ ∅ ∅ ∅ 0.

Definition set_GlobalId (x : gset string) (d : db) : db :=
  mk x (Vehicle d) (Location d) (Inventory d) (InventoryAudit d) (audit_seq d).
Definition set_Vehicle (x : gmap string Vehicle.t) (d : db) : db :=
  mk (GlobalId d) x (Location d) (Inventory d) (InventoryAudit d) (audit_seq d).
Definition set_Location (x : gmap string Location.t) (d : db) : db :=
  mk (GlobalId d) (Vehicle d) x (Inventory d) (InventoryAudit d) (audit_seq d).
Definition set_Inventory (x : gmap string InventoryItem.t) (d : db) : db :=
  mk (GlobalId d) (Vehicle d) (Location d) x (InventoryAudit d) (audit_seq d).
Definition set_InventoryAudit (x : gmap Z Audit.t) (seq : Z) (d : db) : db :=
  mk (GlobalId d) (Vehicle d) (Location d) (Inventory d) x seq.

(** The outcome of one statement. *)
Inductive result := Done (d : db) | Fail (e : exn).

(** Parameters as Python hands them to [execute]. *)
Inductive pyval := PNone | PInt (z : Z) | PStr (s : string).

Definition fits_int64 (z : Z) : bool := (- 2 ^ 63 <=? z) && (z <? 2 ^ 63).

Definition bindable (p : pyval) : bool :=
  match p with PInt z => fits_int64 z | _ => true end.

(** [CHECK (vehicle_type IN ('Truck', 'Trailer'))] *)
Definition vehicle_type_ok (v : Vehicle.t) : bool :=
  String.eqb (Vehicle.vehicle_type v) "Truck"
  || String.eqb (Vehicle.vehicle_type v) "Trailer".

(** A [FOREIGN KEY] column holds NULL or the key of a parent row. *)
Definition references {A} (ref : option string) (parent : gmap string A) : Prop :=
  match ref with None => True | Some k => is_Some (parent !! k) end.

#[global] Instance references_dec {A} ref (parent : gmap string A) :
  Decision (references ref parent).
Proof. destruct ref; simpl; apply _. Defined.

(** [UNIQUE (vehicle_id, side, row, bin)]: two rows collide when the four
    columns agree; a NULL [vehicle_id] is distinct from every value,
    itself included, so rows without a vehicle never collide. *)
Definition same_slot (a b : Location.t) : Prop :=
  is_Some (Location.vehicle_id a)
  /\ Location.vehicle_id a = Location.vehicle_id b
  /\ Location.side a = Location.side b
  /\ Location.row a = Location.row b
  /\ Location.bin a = Location.bin b.

#[global] Instance same_slot_dec a b : Decision (same_slot a b).
Proof. unfold same_slot; apply _. Defined.

(** *** INSERT *)

(** [INSERT INTO GlobalId (id) VALUES (?)] *)
Definition insert_GlobalId (id : string) (d : db) : result :=
  if decide (id ∈ GlobalId d) then Fail (IntegrityError PrimaryKey)
  else Done (set_GlobalId ({[id]} ∪ GlobalId d) d).

(** [INSERT INTO Vehicle (...) VALUES (...)] *)
Definition insert_Vehicle (v : Vehicle.t) (d : db) : result :=
  if negb (vehicle_type_ok v) then Fail (IntegrityError Check)
  else if decide (is_Some (Vehicle d !! Vehicle.vehicle_id v))
  then Fail (IntegrityError PrimaryKey)
  else Done (set_Vehicle (<[Vehicle.vehicle_id v := v]> (Vehicle d)) d).

(** [INSERT INTO Location (...) VALUES (...)] *)
Definition insert_Location (l : Location.t) (d : db) : result :=
  if decide (is_Some (Location d !! Location.location_id l))
  then Fail (IntegrityError PrimaryKey)
  else if decide (map_Exists (fun _ r => same_slot l r) (Location d))
  then Fail (IntegrityError Unique)
  else if decide (references (Location.vehicle_id l) (Vehicle d))
  then Done (set_Location (<[Location.location_id l := l]> (Location d)) d)
  else Fail (IntegrityError ForeignKey).

(** [INSERT INTO Inventory (...) VALUES (...)] *)
Definition insert_Inventory (i : InventoryItem.t) (d : db) : result :=
  if decide (is_Some (Inventory d !! InventoryItem.asset_id i))
  then Fail (IntegrityError PrimaryKey)
  else if decide (is_Some (Location d !! InventoryItem.location_id i))
  then Done (set_Inventory (<[InventoryItem.asset_id i := i]> (Inventory d)) d)
  else Fail (IntegrityError ForeignKey).

(** The rowid AUTOINCREMENT picks: one more than the largest rowid the
    table has ever held. *)
Definition next_audit_id (d : db) : Z :=
  Z.max (audit_seq d)
        (map_fold (fun k _ acc => Z.max k acc) 0 (InventoryAudit d)) + 1.

(** [INSERT INTO InventoryAudit (...) VALUES (...)]; the row comes without
    its [audit_id], which the engine assigns. *)
Definition insert_InventoryAudit
    (row : Z -> Audit.t) (d : db) : result :=
  let a := row (next_audit_id d) in
  if decide (is_Some (Inventory d !! Audit.asset_id a)
             /\ references (Audit.from_location_id a) (Location d)
             /\ references (Audit.to_location_id a) (Location d))
  then Done (set_InventoryAudit
               (<[Audit.audit_id a := a]> (InventoryAudit d))
               (Audit.audit_id a) d)
  else Fail (IntegrityError ForeignKey).

(** *** UPDATE

    [UPDATE t SET c1 = ?, ..., updated_at = ? WHERE key = ?]: the
    assignments are applied to the one row with that key, if there is
    one, and the new row is held against the constraints of its table; a
    statement that matches no row changes nothing and raises nothing. *)

Definition assign {R} (fields : list (R -> R)) (r : R) : R :=
  foldl (fun acc f => f acc) r fields.

Definition update_Vehicle
    (fields : list (Vehicle.t -> Vehicle.t)) (key : string) (d : db) : result :=
  match Vehicle d !! key with
  | None => Done d
  | Some v =>
      let v' := assign fields v in
      if negb (vehicle_type_ok v') then Fail (IntegrityError Check)
      else Done (set_Vehicle (<[key := v']> (Vehicle d)) d)
  end.

Definition update_Location
    (fields : list (Location.t -> Location.t)) (key : string) (d : db) : result :=
  match Location d !! key with
  | None => Done d
  | Some l =>
      let l' := assign fields l in
      if decide (map_Exists (fun k r => k <> key /\ same_slot l' r) (Location d))
      then Fail (IntegrityError Unique)
      else if decide (references (Location.vehicle_id l') (Vehicle d))
      then Done (set_Location (<[key := l']> (Location d)) d)
      else Fail (IntegrityError ForeignKey)
  end.

Definition update_Inventory
    (fields : list (InventoryItem.t -> InventoryItem.t)) (key : string)
    (d : db) : result :=
  match Inventory d !! key with
  | None => Done d
  | Some i =>
      let i' := assign fields i in
      if decide (is_Some (Location d !! InventoryItem.location_id i'))
      then Done (set_Inventory (<[key := i']> (Inventory d)) d)
      else Fail (IntegrityError ForeignKey)
  end.

(** *** DELETE *)

(** [ON DELETE SET NULL] on [Location.vehicle_id]. *)
Definition detach (key : string) (l : Location.t) : Location.t :=
  if decide (Location.vehicle_id l = Some key)
  then Location.set_vehicle_id None l else l.

(** [DELETE FROM Vehicle WHERE vehicle_id = ?] *)
Definition delete_Vehicle (key : string) (d : db) : result :=
  match Vehicle d !! key with
  | None => Done d
  | Some _ =>
      Done (set_Location (detach key <$> Location d)
              (set_Vehicle (delete key (Vehicle d)) d))
  end.

(** [DELETE FROM Location WHERE location_id = ?]; [Inventory.location_id]
    is ON DELETE RESTRICT, and the two location columns of
    [InventoryAudit] carry no action, which forbids the delete as well. *)
Definition delete_Location (key : string) (d : db) : result :=
  match Location d !! key with
  | None => Done d
  | Some _ =>
      if decide (map_Exists
                   (fun _ i => InventoryItem.location_id i = key)
                   (Inventory d))
      then Fail (IntegrityError ForeignKey)
      else if decide (map_Exists
                        (fun _ a => Audit.from_location_id a = Some key
                                    \/ Audit.to_location_id a = Some key)
                        (InventoryAudit d))
      then Fail (IntegrityError ForeignKey)
      else Done (set_Location (delete key (Location d)) d)
  end.

(** [DELETE FROM Inventory WHERE asset_id = ?]; [InventoryAudit.asset_id]
    is ON DELETE CASCADE. *)
Definition delete_Inventory (key : string) (d : db) : result :=
  match Inventory d !! key with
  | None => Done d
  | Some _ =>
      Done (set_InventoryAudit
              (filter (fun ka => Audit.asset_id ka.2 <> key) (InventoryAudit d))
              (audit_seq d)
              (set_Inventory (delete key (Inventory d)) d))
  end.

End Store.

(** ** Queries: ORDER BY, LIMIT / OFFSET, LIKE, the joined view *)

Module Query.
Import Store.

(** A value in a result column. *)
Inductive sqlval := Null | Int (z : Z) | Txt (s : string).

Definition of_text (o : option string) : sqlval :=
  match o with None => Null | Some s => Txt s end.

(** SQLite's sort order: NULL first, then numbers, then text (BINARY). *)
Definition sqlval_compare (a b : sqlval) : comparison :=
  match a, b with
  | Null, Null => Eq
  | Null, _ => Lt
  | _, Null => Gt
  | Int x, Int y => x ?= y
  | Int _, Txt _ => Lt
  | Txt _, Int _ => Gt
  | Txt s, Txt t => String.compare s t
  end.

Fixpoint keys_compare (a b : list sqlval) : comparison :=
  match a, b with
  | [], [] => Eq
  | [], _ :: _ => Lt
  | _ :: _, [] => Gt
  | x :: a', y :: b' =>
      match sqlval_compare x y with
      | Eq => keys_compare a' b'
      | c => c
      end
  end.

Definition keys_leb (a b : list sqlval) : bool :=
  match keys_compare a b with Gt => false | _ => true end.

(** [ORDER BY key ASC|DESC].  SQL leaves the order of rows with equal keys
    to the engine, and SQLite returns them in the order in which its plan
    for the query visits them: by rowid where it scans the table or walks
    an index forwards, by descending rowid where it walks an index
    backwards.  [tie] stands for that choice: the rank the engine's plan
    gives to a row.  Among rows with equal keys the one of lower rank
    comes first, whatever the direction; ranks that differ from row to row
    settle the order completely. *)
Definition precedes {A} (tie : A -> Z) (key : A -> list sqlval) (desc : bool)
    (a b : A) : bool :=
  match keys_compare (key a) (key b) with
  | Lt => negb desc
  | Gt => desc
  | Eq => tie a <=? tie b
  end.

Definition order_by {A} (tie : A -> Z) (key : A -> list sqlval) (desc : bool)
    (rows : list A) : list A :=
  merge_sort (fun a b => Is_true (precedes tie key desc a b)) rows.

(** [LIMIT ? OFFSET ?]: a negative LIMIT is no upper bound, a negative
    OFFSET is zero. *)
Definition limit_offset {A} (limit offset : Z) (rows : list A) : list A :=
  let rest := drop (Z.to_nat offset) rows in
  if limit <? 0 then rest else take (Z.to_nat limit) rest.


(** The scan of a table. *)
Definition rows {K A} `{Countable K} (t : gmap K A) : list A :=
  (map_to_list t).*2.

(** One row of the joined inventory view. *)
Module ViewRow.
Record t := mk {
  asset_id : string;
  location_id : string;
  description : string;
  consumable : Z;
  manufacturer : option string;
  model : option string;
  serial_number : option string;
  vehicle_name : option string;
  vehicle_type : option string;
  side : string;
  row : Z;
  bin : Z;
  last_audited_at : option string
}.
End ViewRow.

(** [FROM Inventory AS inv JOIN Location AS loc ON inv.location_id =
    loc.location_id LEFT JOIN Vehicle AS veh ON loc.vehicle_id =
    veh.vehicle_id] *)
Definition join_row (d : db) (inv : InventoryItem.t) : option ViewRow.t :=
  loc ← Location d !! InventoryItem.location_id inv;
  let veh := Location.vehicle_id loc ≫= fun k => Vehicle d !! k in
  Some (ViewRow.mk
          (InventoryItem.asset_id inv) (InventoryItem.location_id inv)
          (InventoryItem.description inv) (InventoryItem.consumable inv)
          (InventoryItem.manufacturer inv) (InventoryItem.model inv)
          (InventoryItem.serial_number inv)
          (Vehicle.vehicle_name <$> veh) (Vehicle.vehicle_type <$> veh)
          (Location.side loc) (Location.row loc) (Location.bin loc)
          (Location.last_audited_at loc)).

Definition inventory_view (d : db) : list ViewRow.t :=
  omap (join_row d) (rows (Inventory d)).





Section Affinity.
(** How SQLite reads a TEXT operand that is compared with an INTEGER
    column: the integer the text denotes under numeric affinity, if it
    denotes one.  The conversion is the engine's, not this
    repository's, and is left open. *)
Variable numeric_of_text : string -> option Z.





End Affinity.




End Query.

(** ** The repository layer ([repositories.py]) *)

Module Repo.
Import Store.

(** What a repository method runs in: the store behind the connection, the
    raw values [random] is going to draw from, and the reading of the wall
    clock.  [issued] is a history variable: the identifiers
    [generate_global_id] has returned so far, oldest first. *)
Record world := mk {
  store : db;
  rng : list N;
  clock : Time.datetime;
  issued : list string
}.

Definition set_store (d : db) (w : world) : world :=
  mk d (rng w) (clock w) (issued w).
Definition set_clock (t : Time.datetime) (w : world) : world :=
  mk (store w) (rng w) t (issued w).

Definition boot (d : db) (draws : list N) (t : Time.datetime) : world :=
  mk d draws t [].

(** How a call ends: it returns, it raises, or ([Spin]) it is still inside
    the retry loop of [generate_global_id] when the supplied draws are
    used up. *)
Inductive outcome (A : Type) :=
| Return (a : A)
| Raise (e : exn)
| Spin.
Arguments Return {A} a.
Arguments Raise {A} e.
Arguments Spin {A}.

Definition M (A : Type) : Type := world -> outcome A * world.

Definition ret {A} (a : A) : M A := fun w => (Return a, w).

Definition bind {A B} (c : M A) (k : A -> M B) : M B :=
  fun w =>
    match c w with
    | (Return a, w') => k a w'
    | (Raise e, w') => (Raise e, w')
    | (Spin, w') => (Spin, w')
    end.

Notation "'let*' x := c 'in' k" := (bind c (fun x => k))
  (at level 10, x name, c at level 100, k at level 200).
Notation "c ;;; k" := (bind c (fun _ => k))
  (at level 100, k at level 200, right associativity).

(** [self.conn.execute(sql, params)]: the binding converts the parameters
    first, then the engine runs the statement. *)
Definition execute (params : list pyval) (stmt : db -> result) : M unit :=
  fun w =>
    if forallb bindable params then
      match stmt (store w) with
      | Done d => (Return tt, set_store d w)
      | Fail e => (Raise e, w)
      end
    else (Raise OverflowError, w).

(** [self.conn.commit()]: every statement above is already atomic and
    nothing else is pending. *)
Definition commit : M unit := ret tt.

(** [iso_now()] of [db.py] *)
Definition iso_now : M string :=
  fun w => (Return (Time.isoformat (Time.replace_microsecond 0 (clock w))), w).

(** [random.randint(lo, hi)] on a raw draw [r]: a value of [lo..hi], each
    of them reached by some draw. *)
Definition randint (lo hi : N) (r : N) : N := (lo + r mod (hi - lo + 1))%N.

(** *** GlobalIdRepository *)

Fixpoint generate_global_id_loop (draws : list N) (w : world)
    : outcome string * world :=
  match draws with
  | [] => (Spin, mk (store w) [] (clock w) (issued w))
  | r :: draws' =>
      let id_str := Text.format_0d 8 (randint 1 99999999 r) in
      match insert_GlobalId id_str (store w) with
      | Done d =>
          (Return id_str, mk d draws' (clock w) (issued w ++ [id_str]))
      | Fail (IntegrityError _) => generate_global_id_loop draws' w
      | Fail e => (Raise e, mk (store w) draws' (clock w) (issued w))
      end
  end.

Definition generate_global_id : M string :=
  fun w => generate_global_id_loop (rng w) w.

(** *** VehicleRepository *)

Definition create_vehicle
    (vehicle_type vehicle_name vin : string)
    (vehicle_number mileage last_service : Z) : M Vehicle.t :=
  let* now := iso_now in
  let* vehicle_id := generate_global_id in
  let v := Vehicle.mk vehicle_id vehicle_type vehicle_name vin
             vehicle_number mileage last_service now now in
  execute [PStr vehicle_id; PStr vehicle_type; PStr vehicle_name; PStr vin;
           PInt vehicle_number; PInt mileage; PInt last_service;
           PStr now; PStr now]
          (insert_Vehicle v) ;;;
  commit ;;;
  ret v.

Definition get_vehicle (vehicle_id : string) : M (option Vehicle.t) :=
  fun w => (Return (Vehicle (store w) !! vehicle_id), w).

(** The listings below take, before the arguments of the method, the
    rank [tie] that the engine's plan for their query gives to the rows
    (see [Query.order_by]). *)
Definition list_vehicles (tie : Vehicle.t -> Z) : M (list Vehicle.t) :=
  fun w =>
    (Return (Query.order_by tie
               (fun v => [Query.Txt (Vehicle.vehicle_name v)]) false
               (Query.rows (Vehicle (store w)))), w).

(** The loop over [mapping.items()]: a field whose value is not [None]
    contributes its assignment to [fields] and its value to [params]. *)
Definition provided {A R} (set : A -> R -> R) (param : A -> pyval)
    (value : option A) : list ((R -> R) * pyval) :=
  match value with
  | Some a => [(set a, param a)]
  | None => []
  end.

Definition update_vehicle (vehicle_id : string)
    (vehicle_type vehicle_name vin : option string)
    (vehicle_number mileage last_service : option Z) : M unit :=
  let mapping :=
    (provided Vehicle.set_vehicle_type PStr vehicle_type
     ++ provided Vehicle.set_vehicle_name PStr vehicle_name
     ++ provided Vehicle.set_vin PStr vin
     ++ provided Vehicle.set_vehicle_number PInt vehicle_number
     ++ provided Vehicle.set_mileage PInt mileage
     ++ provided Vehicle.set_last_service PInt last_service)%list in
  match mapping with
  | [] => ret tt
  | _ =>
      let* now := iso_now in
      execute (mapping.*2 ++ [PStr now; PStr vehicle_id])%list
              (update_Vehicle (mapping.*1 ++ [Vehicle.set_updated_at now])%list
                              vehicle_id) ;;;
      commit
  end.

Definition delete_vehicle (vehicle_id : string) : M unit :=
  execute [PStr vehicle_id] (delete_Vehicle vehicle_id) ;;; commit.

(** *** LocationRepository *)

Definition of_optional (o : option string) : pyval :=
  match o with None => PNone | Some s => PStr s end.

Definition create_location (side : string) (row bin : Z)
    (vehicle_id : option string) : M Location.t :=
  let* now := iso_now in
  let* location_id := generate_global_id in
  let l := Location.mk location_id vehicle_id side row bin now now None in
  execute [PStr location_id; of_optional vehicle_id; PStr side; PInt row;
           PInt bin; PStr now; PStr now; PNone]
          (insert_Location l) ;;;
  commit ;;;
  ret l.

Definition location_key (with_vehicle : bool) (l : Location.t)
    : list Query.sqlval :=
  ((if with_vehicle then [Query.of_text (Location.vehicle_id l)] else [])
   ++ [Query.Txt (Location.side l); Query.Int (Location.row l);
       Query.Int (Location.bin l)])%list.

Definition list_locations (tie : Location.t -> Z)
    (vehicle_id : option string) : M (list Location.t) :=
  fun w =>
    let all := Query.rows (Location (store w)) in
    match vehicle_id with
    | Some v =>
        if String.eqb v "" then
          (Return (Query.order_by tie (location_key true) false all), w)
        else
          (Return (Query.order_by tie (location_key false) false
                     (filter (fun l => Location.vehicle_id l = Some v) all)), w)
    | None => (Return (Query.order_by tie (location_key true) false all), w)
    end.

Definition get_location (location_id : string) : M (option Location.t) :=
  fun w => (Return (Location (store w) !! location_id), w).

Definition update_location (location_id : string)
    (side : option string) (row bin : option Z)
    (vehicle_id last_audited_at : option string) : M unit :=
  let mapping :=
    (provided Location.set_side PStr side
     ++ provided Location.set_row PInt row
     ++ provided Location.set_bin PInt bin
     ++ provided (fun x => Location.set_vehicle_id (Some x)) PStr vehicle_id
     ++ provided (fun x => Location.set_last_audited_at (Some x)) PStr
                 last_audited_at)%list in
  match mapping with
  | [] => ret tt
  | _ =>
      let* now := iso_now in
      execute (mapping.*2 ++ [PStr now; PStr location_id])%list
              (update_Location (mapping.*1 ++ [Location.set_updated_at now])%list
                               location_id) ;;;
      commit
  end.

Definition delete_location (location_id : string) : M unit :=
  execute [PStr location_id] (delete_Location location_id) ;;; commit.

(** *** InventoryRepository *)

Definition int_of_bool (b : bool) : Z := if b then 1 else 0.

Definition create_inventory (description location_id : string)
    (consumable : bool) (manufacturer model serial_number : option string)
    : M InventoryItem.t :=
  let* now := iso_now in
  let* asset_id := generate_global_id in
  let i := InventoryItem.mk asset_id description location_id
             (int_of_bool consumable) manufacturer model serial_number
             now now in
  execute [PStr asset_id; PStr description; PStr location_id;
           PInt (int_of_bool consumable); of_optional manufacturer;
           of_optional model; of_optional serial_number; PStr now; PStr now]
          (insert_Inventory i) ;;;
  commit ;;;
  ret i.

Definition update_inventory (asset_id : string)
    (description location_id : option string) (consumable : option bool)
    (manufacturer model serial_number : option string) : M unit :=
  let consumable_value := int_of_bool <$> consumable in
  let mapping :=
    (provided InventoryItem.set_description PStr description
     ++ provided InventoryItem.set_location_id PStr location_id
     ++ provided InventoryItem.set_consumable PInt consumable_value
     ++ provided (fun x => InventoryItem.set_manufacturer (Some x)) PStr
                 manufacturer
     ++ provided (fun x => InventoryItem.set_model (Some x)) PStr model
     ++ provided (fun x => InventoryItem.set_serial_number (Some x)) PStr
                 serial_number)%list in
  match mapping with
  | [] => ret tt
  | _ =>
      let* now := iso_now in
      execute (mapping.*2 ++ [PStr now; PStr asset_id])%list
              (update_Inventory
                 (mapping.*1 ++ [InventoryItem.set_updated_at now])%list
                 asset_id) ;;;
      commit
  end.

Definition delete_inventory (asset_id : string) : M unit :=
  execute [PStr asset_id] (delete_Inventory asset_id) ;;; commit.

Definition get_inventory (asset_id : string) : M (option InventoryItem.t) :=
  fun w => (Return (Inventory (store w) !! asset_id), w).

Definition list_inventory (tie : InventoryItem.t -> Z)
    (location_id : option string) : M (list InventoryItem.t) :=
  fun w =>
    let all := Query.rows (Inventory (store w)) in
    let key := fun i => [Query.Txt (InventoryItem.description i)] in
    match location_id with
    | Some l =>
        if String.eqb l "" then (Return (Query.order_by tie key false all), w)
        else
          (Return (Query.order_by tie key false
                     (filter (fun i => InventoryItem.location_id i = l) all)), w)
    | None => (Return (Query.order_by tie key false all), w)
    end.

Definition list_inventory_view (tie : Query.ViewRow.t -> Z)
    : M (list Query.ViewRow.t) :=
  fun w =>
    (Return (Query.order_by tie
               (fun r => [Query.Txt (Query.ViewRow.description r)]) false
               (Query.inventory_view (store w))), w).




Definition is_desc (order_dir : string) : bool :=
  String.eqb (Text.upper order_dir) "DESC".


Section View.
Variable numeric_of_text : string -> option Z.



End View.

(** *** AuditRepository *)

(** [audited_at or iso_now()] *)
Definition timestamp_or_now (audited_at : option string) : M string :=
  match audited_at with
  | Some s => if String.eqb s "" then iso_now else ret s
  | None => iso_now
  end.

Definition record_audit (asset_id action : string)
    (from_location_id to_location_id notes user audited_at : option string)
    : M Z :=
  let* timestamp := timestamp_or_now audited_at in
  let* lastrowid := (fun w => (Return (next_audit_id (store w)), w)) in
  execute [PStr asset_id; of_optional from_location_id;
           of_optional to_location_id; PStr action; of_optional notes;
           PStr timestamp; of_optional user]
          (insert_InventoryAudit
             (fun audit_id =>
                Audit.mk audit_id asset_id from_location_id to_location_id
                         action notes timestamp user)) ;;;
  commit ;;;
  ret lastrowid.

Definition list_audits_for_asset (tie : Audit.t -> Z) (asset_id : string)
    : M (list Audit.t) :=
  fun w =>
    (Return (Query.order_by tie (fun a => [Query.Int (Audit.audit_id a)]) true
               (List.filter (fun a => String.eqb (Audit.asset_id a) asset_id)
                  (Query.rows (InventoryAudit (store w))))), w).

(** *** Runs of calls

    The write methods as data, and what the user interface does with
    them: one call after the other, an exception being reported and the
    next call going ahead; a call that never returns ends the run. *)
Inductive call :=
| GenerateGlobalId
| CreateVehicle (vehicle_type vehicle_name vin : string)
                (vehicle_number mileage last_service : Z)
| UpdateVehicle (vehicle_id : string)
                (vehicle_type vehicle_name vin : option string)
                (vehicle_number mileage last_service : option Z)
| DeleteVehicle (vehicle_id : string)
| CreateLocation (side : string) (row bin : Z) (vehicle_id : option string)
| UpdateLocation (location_id : string) (side : option string)
                 (row bin : option Z)
                 (vehicle_id last_audited_at : option string)
| DeleteLocation (location_id : string)
| CreateInventory (description location_id : string) (consumable : bool)
                  (manufacturer model serial_number : option string)
| UpdateInventory (asset_id : string)
                  (description location_id : option string)
                  (consumable : option bool)
                  (manufacturer model serial_number : option string)
| DeleteInventory (asset_id : string)
| RecordAudit (asset_id action : string)
              (from_location_id to_location_id notes user audited_at
                 : option string).

Definition void {A} (c : M A) : M unit := let* _ := c in ret tt.

Definition perform (c : call) : M unit :=
  match c with
  | GenerateGlobalId => void generate_global_id
  | CreateVehicle ty name vin num mil svc =>
      void (create_vehicle ty name vin num mil svc)
  | UpdateVehicle id ty name vin num mil svc =>
      update_vehicle id ty name vin num mil svc
  | DeleteVehicle id => delete_vehicle id
  | CreateLocation side row bin veh => void (create_location side row bin veh)
  | UpdateLocation id side row bin veh aud =>
      update_location id side row bin veh aud
  | DeleteLocation id => delete_location id
  | CreateInventory desc loc flag man mdl ser =>
      void (create_inventory desc loc flag man mdl ser)
  | UpdateInventory id desc loc flag man mdl ser =>
      update_inventory id desc loc flag man mdl ser
  | DeleteInventory id => delete_inventory id
  | RecordAudit asset action from to notes user at_ =>
      void (record_audit asset action from to notes user at_)
  end.

(** A run: each call is made at its own reading of the clock. *)
Fixpoint run (calls : list (Time.datetime * call)) (w : world) : world :=
  match calls with
  | [] => w
  | (t, c) :: calls' =>
      match perform c (set_clock t w) with
      | (Spin, w') => w'
      | (_, w') => run calls' w'
      end
  end.

End Repo.

(** ** Backup files ([backup.py]) *)

Module Backup.

(** The backup directory: the names of its entries, and the names the
    operating system refuses to unlink (no permission, a directory, ...). *)
Record directory := mk {
  entries : gset string;
  stuck : gset string
}.

(** [backup_dir.glob(pattern)] *)
Definition glob (pattern : string) (dir : directory) : list string :=
  List.filter (fun name => Text.fnmatch name pattern) (elements (entries dir)).

(** [sorted(paths)]: paths of one directory are ordered by their names. *)
Definition sorted (paths : list string) : list string :=
  merge_sort (fun a b => Is_true (String.leb a b)) paths.

(** [path.unlink()]: [None] stands for the [OSError]. *)
Definition unlink (path : string) (dir : directory) : option directory :=
  if decide (path ∈ entries dir /\ path ∉ stuck dir)
  then Some (mk (entries dir ∖ {[path]}) (stuck dir))
  else None.

(** [paths[:-k]] for [k > 0] *)
Definition all_but_last {A} (k : nat) (paths : list A) : list A :=
  take (length paths - k) paths.

(** The [for] loop of [prune_backups]: a path whose [unlink] raises
    [OSError] is logged and left out of [removed]. *)
Fixpoint prune_loop (paths removed : list string) (dir : directory)
    : list string * directory :=
  match paths with
  | [] => (removed, dir)
  | path :: paths' =>
      match unlink path dir with
      | Some dir' => prune_loop paths' (removed ++ [path])%list dir'
      | None => prune_loop paths' removed dir
      end
  end.

Definition prune_backups (dir : directory) (max_backups : Z)
    : list string * directory :=
  let backups := sorted (glob "inventory_*.db" dir) in
  if (max_backups <=? 0) || (Z.of_nat (length backups) <=? max_backups)
  then ([], dir)
  else prune_loop (all_but_last (Z.to_nat max_backups) backups) [] dir.

(** The name [backup_database] gives the copy it makes at [now]. *)
Definition backup_name (now : Time.datetime) : string :=
  "inventory_" +:+ Time.strftime_compact now +:+ ".db".

(** [backup_database], as far as the directory goes: the copy is an entry
    under [backup_name now], new or overwritten. *)
Definition backup_database (now : Time.datetime) (dir : directory)
    : string * directory :=
  (backup_name now, mk ({[backup_name now]} ∪ entries dir) (stuck dir)).

(** The body of [BackupManager._run_backup] on its successful path: the
    copy, then the pruning. *)
Definition run_backup (now : Time.datetime) (max_backups : Z)
    (dir : directory) : string * list string * directory :=
  let '(backup_path, dir1) := backup_database now dir in
  let '(removed, dir2) := prune_backups dir1 max_backups in
  (backup_path, removed, dir2).

End Backup.

(** ** Predicates of the statements below *)

Module Frame.
Import Store Repo.

(** The four entity tables of [d'] are those of [d]. *)
Definition same_rows (d d' : db) : Prop :=
  Vehicle d' = Vehicle d /\ Location d' = Location d
  /\ Inventory d' = Inventory d /\ InventoryAudit d' = InventoryAudit d.

(** An optional integer parameter fits SQLite's INTEGER. *)
Definition fits (o : option Z) : bool := from_option fits_int64 true o.

(** Every stored vehicle passes the CHECK of its table. *)
Definition checked (d : db) : Prop :=
  map_Forall (fun _ v => vehicle_type_ok v = true) (Vehicle d).

(** What [iso_now()] returns in [w]. *)
Definition now_of (w : world) : string :=
  Time.isoformat (Time.replace_microsecond 0 (clock w)).

(** The timestamp [record_audit] stores: the caller's, unless it is absent
    or empty. *)
Definition audit_timestamp (audited_at : option string) (w : world) : string :=
  match audited_at with
  | Some s => if String.eqb s "" then now_of w else s
  | None => now_of w
  end.




(** The three update methods among the calls. *)
Definition is_update (c : call) : bool :=
  match c with
  | UpdateVehicle _ _ _ _ _ _ _ | UpdateLocation _ _ _ _ _ _
  | UpdateInventory _ _ _ _ _ _ _ => true
  | _ => false
  end.

(** From [d] to [d'] every location and every inventory item is still
    there, and none of their optional columns went from a value to NULL. *)
Definition keeps_optional (d d' : db) : Prop :=
  (forall k l, Location d !! k = Some l ->
     exists l', Location d' !! k = Some l'
       /\ (is_Some (Location.vehicle_id l) -> is_Some (Location.vehicle_id l'))
       /\ (is_Some (Location.last_audited_at l)
           -> is_Some (Location.last_audited_at l')))
  /\ (forall k i, Inventory d !! k = Some i ->
        exists i', Inventory d' !! k = Some i'
          /\ (is_Some (InventoryItem.manufacturer i)
              -> is_Some (InventoryItem.manufacturer i'))
          /\ (is_Some (InventoryItem.model i) -> is_Some (InventoryItem.model i'))
          /\ (is_Some (InventoryItem.serial_number i)
              -> is_Some (InventoryItem.serial_number i'))).

End Frame.

(** ** Invariants of the proofs below *)

Module Invariant.
Import Store Repo.

(** The footprint of a call on the allocator: the identifiers it hands
    out are new to [GlobalId], distinct, eight digits each, and from then
    on recorded; nothing leaves [GlobalId]. *)
Definition hands_out (new : list string) (w w' : world) : Prop :=
  issued w' = (issued w ++ new)%list
  /\ NoDup new
  /\ GlobalId (store w') = list_to_set new ∪ GlobalId (store w)
  /\ Forall (fun id => (id ∉ GlobalId (store w))
                       /\ Text.digits_only 8 id = true) new.

Definition allocating {A} (c : M A) : Prop :=
  forall w, exists new, hands_out new w (c w).2.

(** A statement that leaves [GlobalId] alone. *)
Definition keeps_ids (stmt : db -> result) : Prop :=
  forall d d', stmt d = Done d' -> GlobalId d' = GlobalId d.

(** The invariant of a run that starts with an empty history on a store
    whose [GlobalId] is [ids]. *)
Definition history_ok (ids : gset string) (w : world) : Prop :=
  NoDup (issued w)
  /\ ids ⊆ GlobalId (store w)
  /\ Forall (fun id => id ∈ GlobalId (store w) /\ (id ∉ ids)
                       /\ Text.digits_only 8 id = true) (issued w).

(** A statement, and a call, that keep the vehicles' types checked. *)
Definition keeps_checked (stmt : db -> result) : Prop :=
  forall d d', stmt d = Done d' -> Frame.checked d -> Frame.checked d'.

Definition checking {A} (c : M A) : Prop :=
  forall w, Frame.checked (store w) -> Frame.checked (store (c w).2).

End Invariant.

(** ** Sample data *)

Module Sample.
Import Store Repo.

Definition noon : Time.datetime := Time.mk 2024 3 5 14 7 9 250000.
Definition stamp : string := "2024-03-05T14:07:09".

(** One truck, one location on it, two items at that location. *)
Definition depot : world :=
  run [(noon, CreateVehicle "Truck" "T1" "VIN1" 1 1200 1000);
       (noon, CreateLocation "Left" 1 2 (Some "00000042"));
       (noon, CreateInventory "oil" "00000008" true None (Some "5W") None);
       (noon, CreateInventory "jack" "00000008" false (Some "Acme") None None)]
      (boot Store.empty [41; 7; 3; 11; 77]%N noon).

Definition truck : Vehicle.t :=
  Vehicle.mk "00000042" "Truck" "T1" "VIN1" 1 1200 1000 stamp stamp.

Definition shelf : Location.t :=
  Location.mk "00000008" (Some "00000042") "Left" 1 2 stamp stamp None.

Definition oil : InventoryItem.t :=
  InventoryItem.mk "00000004" "oil" "00000008" 1 None (Some "5W") None
                   stamp stamp.

Definition jack : InventoryItem.t :=
  InventoryItem.mk "00000012" "jack" "00000008" 0 (Some "Acme") None None
                   stamp stamp.

(** A backup directory: five nightly backups and a file of another kind. *)
Definition night (day : N) : Time.datetime := Time.mk 2024 3 day 2 0 0 0.

Definition archive : Backup.directory :=
  Backup.mk ({[Backup.backup_name (night 1); Backup.backup_name (night 2);
               Backup.backup_name (night 3); Backup.backup_name (night 4);
               Backup.backup_name (night 5)]} ∪ {["notes.txt"]}) ∅.

(** The same directory with its oldest backup write-protected. *)
Definition protected_archive : Backup.directory :=
  Backup.mk (Backup.entries archive) {["inventory_20240301_020000.db"]}.

End Sample.

#[local] Set Warnings "-clear-no-such-hyp".
(** * Facts about text *)

Example format_0d_pads : Text.format_0d 8 42 = "00000042".
Proof. reflexivity. Qed.

Example format_0d_full : Text.format_0d 8 99999999 = "99999999".
Proof. reflexivity. Qed.

Example format_0d_wide : Text.format_0d 2 2026 = "2026".
Proof. reflexivity. Qed.

Example str_of_int_negative : Text.str_of_int (-305) = "-305".
Proof. reflexivity. Qed.

Example like_ignores_case :
  Text.like (Text.contains_pattern "oil") "Motor OIL 5W" = true.
Proof. reflexivity. Qed.

Example like_one_character :
  Text.like "a_c" "abc" = true /\ Text.like "a_c" "abd" = false
  /\ Text.like "a_c" "ac" = false.
Proof. repeat split; reflexivity. Qed.

(** One character is one UTF-8 character, however many bytes it has. *)
Example like_one_character_utf8 :
  Text.like "%j_ck%" "jäck" = true /\ Text.like "_" "€" = true
  /\ Text.like "%__" "€" = false /\ Text.like "__" "ä" = false.
Proof. repeat split; reflexivity. Qed.

(** Case is folded for the letters of ASCII only. *)
Example like_folds_ascii_only :
  Text.like "%e%" "E" = true /\ Text.like "%é%" "É" = false.
Proof. repeat split; reflexivity. Qed.

(** Both operands end at their first NUL byte. *)
Example like_stops_at_nul :
  let nul := String (ascii_of_N 0) EmptyString in
  Text.like ("a" +:+ nul +:+ "b") "a" = true
  /\ Text.like "%b%" ("a" +:+ nul +:+ "b") = false.
Proof. repeat split; reflexivity. Qed.

(** [order_dir.upper() == "DESC"]: the long s (U+017F) is an s as well,
    the sharp s is two. *)
Example is_desc_upper :
  Repo.is_desc "desc" = true /\ Repo.is_desc "DeSc" = true
  /\ Repo.is_desc "deſc" = true /\ Repo.is_desc "deßc" = false
  /\ Repo.is_desc "descending" = false /\ Repo.is_desc "" = false.
Proof. repeat split; reflexivity. Qed.

(** [str(value).lower() == "yes"]: the Kelvin sign (U+212A, the bytes
    E2 84 AA) is the one character outside ASCII whose lower case is an
    ASCII letter. *)
Example lower_kelvin :
  Text.lower "YES" = "yes"
  /\ Text.lower (string_of_list_ascii
                   [ascii_of_N 226; ascii_of_N 132; ascii_of_N 170]) = "k".
Proof. repeat split; reflexivity. Qed.

Example fnmatch_backup_pattern :
  Text.fnmatch "inventory_20240101_120000.db" "inventory_*.db" = true
  /\ Text.fnmatch "inventory_.db" "inventory_*.db" = true
  /\ Text.fnmatch "inventory.db" "inventory_*.db" = false
  /\ Text.fnmatch "Inventory_1.db" "inventory_*.db" = false.
Proof. repeat split; reflexivity. Qed.

Example isoformat_drops_microseconds :
  Time.isoformat (Time.replace_microsecond 0 Sample.noon) = Sample.stamp
  /\ Time.isoformat Sample.noon = "2024-03-05T14:07:09.250000".
Proof. split; reflexivity. Qed.

Example backup_name_noon :
  Backup.backup_name Sample.noon = "inventory_20240305_140709.db".
Proof. reflexivity. Qed.

Section TextFacts.
Import Text.
Local Open Scope N_scope.

Lemma N_of_digit (d : N) : d < 10 -> N_of_ascii (digit d) = 48 + d.
Proof.
  intros Hd. unfold digit. apply N_ascii_embedding. lia.
Qed.

Lemma is_digit_digit (d : N) : d < 10 -> is_digit (digit d) = true.
Proof.
  intros Hd. unfold is_digit. rewrite N_of_digit by done.
  apply andb_true_intro; split; apply N.leb_le; lia.
Qed.

Lemma fixed_length (k : nat) (n : N) : length (fixed k n) = k.
Proof.
  revert n; induction k as [|k IH]; intros n; simpl; [done|].
  rewrite length_app, IH. simpl. lia.
Qed.

Lemma fixed_digits (k : nat) (n : N) : forallb is_digit (fixed k n) = true.
Proof.
  revert n; induction k as [|k IH]; intros n; simpl; [done|].
  rewrite forallb_app, IH. simpl.
  rewrite is_digit_digit; [done|]. apply N.mod_lt. lia.
Qed.

Lemma fixed_zero (k : nat) : fixed k 0 = replicate k "0"%char.
Proof.
  induction k as [|k IH]; [done|]. cbn [fixed].
  change (0 / 10) with 0. change (digit (0 mod 10)) with "0"%char.
  rewrite IH. by rewrite <- replicate_cons_app.
Qed.

(** Leading zeros: a number below [10 ^ j] rendered on more than [j]
    digits. *)
Lemma fixed_pad (i j : nat) (n : N) :
  n < 10 ^ N.of_nat j ->
  fixed (i + j) n = (replicate i "0"%char ++ fixed j n)%list.
Proof.
  revert n; induction j as [|j IH]; intros n Hn.
  - assert (n = 0) as -> by (simpl in Hn; lia).
    rewrite Nat.add_0_r, fixed_zero. simpl. by rewrite app_nil_r.
  - rewrite Nat.add_succ_r. simpl. rewrite IH, app_assoc; [done|].
    rewrite Nat2N.inj_succ, N.pow_succ_r' in Hn.
    apply N.Div0.div_lt_upper_bound. lia.
Qed.

(** With fuel for its bits, the digit loop produces the digits of [n] and
    no leading zero. *)
Lemma decimal_go_fixed (fuel : nat) :
  forall (n : N) (k : nat) (acc : list ascii),
    n < 2 ^ N.of_nat fuel -> n < 10 ^ N.of_nat k -> (1 <= k)%nat ->
    exists j : nat,
      (1 <= j <= k)%nat /\ n < 10 ^ N.of_nat j
      /\ decimal_go (S fuel) n acc = (fixed j n ++ acc)%list.
Proof.
  induction fuel as [|fuel IH]; intros n k acc Hf Hk Hk1.
  - assert (n = 0) as -> by (simpl in Hf; lia).
    exists 1%nat. split; [lia|]. split; [simpl; lia|reflexivity].
  - cbn [decimal_go]. destruct (N.eqb_spec (n / 10) 0) as [Hz|Hz].
    + exists 1%nat. split; [lia|]. split; [|reflexivity].
      apply N.div_small_iff in Hz; [|lia]. simpl. lia.
    + destruct k as [|[|k]]; [lia| |].
      { exfalso. apply Hz. apply N.div_small. simpl in Hk. lia. }
      destruct (IH (n / 10) (S k) (digit (n mod 10) :: acc)) as (j & Hj & Hlt & Heq).
      * rewrite Nat2N.inj_succ, N.pow_succ_r' in Hf.
        apply N.Div0.div_lt_upper_bound.
        assert (n / 10 <= n / 2); [|lia].
        apply N.div_le_compat_l. lia.
        (* n/10 < 2^fuel *)
      * rewrite (Nat2N.inj_succ (S k)), N.pow_succ_r' in Hk.
        apply N.Div0.div_lt_upper_bound. lia.
      * lia.
      * exists (S j). split; [lia|]. split.
        -- rewrite Nat2N.inj_succ, N.pow_succ_r'.
           pose proof (N.Div0.div_mod n 10). pose proof (N.mod_lt n 10). lia.
        -- cbn [decimal_go] in Heq. rewrite Heq. simpl.
           by rewrite <- app_assoc.
Qed.

Lemma size_nat_bound (n : N) : n < 2 ^ N.of_nat (N.size_nat n).
Proof.
  destruct n as [|p]; [simpl; lia|]. simpl N.size_nat.
  induction p as [p IH|p IH|]; simpl Pos.size_nat;
    rewrite ?Nat2N.inj_succ, ?N.pow_succ_r'; [lia..|simpl; lia].
Qed.

Lemma decimal_fixed (n : N) (k : nat) :
  n < 10 ^ N.of_nat k -> (1 <= k)%nat ->
  exists j : nat, (1 <= j <= k)%nat /\ n < 10 ^ N.of_nat j
                  /\ decimal n = fixed j n.
Proof.
  intros Hk Hk1.
  destruct (decimal_go_fixed (N.size_nat n) n k [] (size_nat_bound n) Hk Hk1)
    as (j & Hj & Hlt & Heq).
  exists j. unfold decimal. rewrite Heq, app_nil_r. done.
Qed.

(** Below [10 ^ k] the format spec [0kd] yields exactly [k] digits. *)
Lemma format_0d_fixed (k : nat) (n : N) :
  n < 10 ^ N.of_nat k -> (1 <= k)%nat ->
  format_0d k n = string_of_list_ascii (fixed k n).
Proof.
  intros Hk Hk1. destruct (decimal_fixed n k Hk Hk1) as (j & Hj & Hlt & Heq).
  unfold format_0d, zero_pad. rewrite Heq, fixed_length.
  rewrite <- (fixed_pad (k - j) j n Hlt). do 2 f_equal. lia.
Qed.

Lemma format_0d_digits_only (k : nat) (n : N) :
  n < 10 ^ N.of_nat k -> (1 <= k)%nat ->
  digits_only k (format_0d k n) = true.
Proof.
  intros Hk Hk1. rewrite format_0d_fixed by done.
  unfold digits_only. rewrite list_ascii_of_string_of_list_ascii.
  rewrite fixed_length, fixed_digits, Nat.eqb_refl. done.
Qed.
End TextFacts.

(** * Facts about the identifier allocator *)

Section Allocator.
Import Store Repo Invariant.

Lemma randint_range (lo hi r : N) :
  (lo <= hi -> lo <= randint lo hi r <= hi)%N.
Proof.
  intros Hle. unfold randint.
  assert (r mod (hi - lo + 1) < hi - lo + 1)%N by (apply N.mod_lt; lia).
  revert H. generalize (r mod (hi - lo + 1))%N. lia.
Qed.

Lemma candidate_digits (r : N) :
  Text.digits_only 8 (Text.format_0d 8 (randint 1 99999999 r)) = true.
Proof.
  apply format_0d_digits_only; [|lia].
  destruct (randint_range 1 99999999 r) as [_ Hhi]; [lia|].
  change (10 ^ N.of_nat 8)%N with 100000000%N. lia.
Qed.

(** What one run of the retry loop does: it either returns a candidate
    that was free and is now recorded, or spins with the store as it was.
    It never raises. *)
Lemma generate_global_id_loop_spec (draws : list N) (w : world) :
  match generate_global_id_loop draws w with
  | (Return id, w') =>
      Text.digits_only 8 id = true
      /\ (id ∉ GlobalId (store w))
      /\ store w' = set_GlobalId ({[id]} ∪ GlobalId (store w)) (store w)
      /\ issued w' = (issued w ++ [id])%list
      /\ clock w' = clock w
      /\ exists used, draws = (used ++ rng w')%list
  | (Spin, w') => store w' = store w /\ issued w' = issued w
  | (Raise _, _) => False
  end.
Proof.
  induction draws as [|r draws IH]; simpl; [done|].
  unfold insert_GlobalId. case_decide as Hin.
  - destruct (generate_global_id_loop draws w) as [[id| |] w']; [|done..].
    destruct IH as (?&?&?&?&?&used&->). repeat split; try done.
    by exists (r :: used).
  - simpl. repeat split; try done.
    + apply candidate_digits.
    + by exists [r].
Qed.

(** The loop returns as soon as one of the draws is free. *)
Lemma generate_global_id_loop_returns (draws : list N) (w : world) (r : N) :
  r ∈ draws ->
  Text.format_0d 8 (randint 1 99999999 r) ∉ GlobalId (store w) ->
  exists id w', generate_global_id_loop draws w = (Return id, w').
Proof.
  induction draws as [|r' draws IH]; intros Hin Hfree.
  - by apply elem_of_nil in Hin.
  - simpl. unfold insert_GlobalId. case_decide as Hused; [|by eauto].
    apply elem_of_cons in Hin as [->|Hin]; [done|]. by apply IH.
Qed.

Lemma hands_out_nil (w w' : world) :
  issued w' = issued w -> GlobalId (store w') = GlobalId (store w) ->
  hands_out [] w w'.
Proof.
  intros Hi Hg. unfold hands_out. rewrite Hi, Hg, app_nil_r.
  repeat split; [constructor|set_solver|constructor].
Qed.

Lemma hands_out_trans (new1 new2 : list string) (w1 w2 w3 : world) :
  hands_out new1 w1 w2 -> hands_out new2 w2 w3 ->
  hands_out (new1 ++ new2) w1 w3.
Proof.
  intros (Hi1 & Hd1 & Hg1 & Hf1) (Hi2 & Hd2 & Hg2 & Hf2).
  rewrite Forall_forall in Hf1, Hf2.
  unfold hands_out. rewrite Hi2, Hi1, Hg2, Hg1, app_assoc.
  repeat split.
  - apply NoDup_app. repeat split; [done| |done].
    intros id H1 H2. apply Hf2 in H2 as [H2 _]. apply H2.
    rewrite Hg1. set_solver.
  - rewrite list_to_set_app_L. set_solver.
  - apply Forall_app; split; apply Forall_forall; intros id Hid.
    + by apply Hf1.
    + apply Hf2 in Hid as [H2 ?]. split; [|done]. rewrite Hg1 in H2. set_solver.
Qed.

Lemma allocating_ret {A} (a : A) : allocating (ret a).
Proof. intros w. exists []. by apply hands_out_nil. Qed.

Lemma allocating_bind {A B} (c : M A) (k : A -> M B) :
  allocating c -> (forall a, allocating (k a)) -> allocating (bind c k).
Proof.
  intros Hc Hk w. unfold bind. destruct (Hc w) as [new1 H1].
  destruct (c w) as [[a|e|] w1]; simpl in *; [|by eauto..].
  destruct (Hk a w1) as [new2 H2]. exists (new1 ++ new2)%list.
  by eapply hands_out_trans.
Qed.

Lemma allocating_generate : allocating generate_global_id.
Proof.
  intros w. unfold generate_global_id.
  pose proof (generate_global_id_loop_spec (rng w) w) as H.
  destruct (generate_global_id_loop (rng w) w) as [[id|e|] w']; simpl; [|done|].
  - destruct H as (Hd & Hfree & Hs & Hi & _). exists [id].
    unfold hands_out. rewrite Hs, Hi. simpl.
    repeat split; [apply NoDup_singleton|set_solver|].
    by repeat constructor.
  - destruct H as [Hs Hi]. exists []. apply hands_out_nil; by rewrite ?Hs.
Qed.

Lemma allocating_execute (params : list pyval) (stmt : db -> result) :
  keeps_ids stmt -> allocating (execute params stmt).
Proof.
  intros Hk w. exists []. unfold execute.
  destruct (forallb bindable params); [|by apply hands_out_nil].
  destruct (stmt (store w)) as [d|e] eqn:Hs; simpl; apply hands_out_nil;
    try done. by apply Hk.
Qed.

Lemma allocating_pure {A} (c : M A) :
  (forall w, (c w).2 = w) -> allocating c.
Proof. intros Hc w. exists []. rewrite Hc. by apply hands_out_nil. Qed.

Ltac keeps :=
  intros d d';
  repeat first [ progress simpl
               | case_match; try discriminate
               | case_decide; try discriminate ];
  intros [= <-]; reflexivity.

Lemma keeps_insert_Vehicle v : keeps_ids (insert_Vehicle v).
Proof. unfold insert_Vehicle. keeps. Qed.
Lemma keeps_insert_Location l : keeps_ids (insert_Location l).
Proof. unfold insert_Location. keeps. Qed.
Lemma keeps_insert_Inventory i : keeps_ids (insert_Inventory i).
Proof. unfold insert_Inventory. keeps. Qed.
Lemma keeps_insert_InventoryAudit row : keeps_ids (insert_InventoryAudit row).
Proof. unfold insert_InventoryAudit. keeps. Qed.
Lemma keeps_update_Vehicle f k : keeps_ids (update_Vehicle f k).
Proof. unfold update_Vehicle. keeps. Qed.
Lemma keeps_update_Location f k : keeps_ids (update_Location f k).
Proof. unfold update_Location. keeps. Qed.
Lemma keeps_update_Inventory f k : keeps_ids (update_Inventory f k).
Proof. unfold update_Inventory. keeps. Qed.
Lemma keeps_delete_Vehicle k : keeps_ids (delete_Vehicle k).
Proof. unfold delete_Vehicle. keeps. Qed.
Lemma keeps_delete_Location k : keeps_ids (delete_Location k).
Proof. unfold delete_Location. keeps. Qed.
Lemma keeps_delete_Inventory k : keeps_ids (delete_Inventory k).
Proof. unfold delete_Inventory. keeps. Qed.

Ltac allocating_step :=
  first
    [ apply allocating_ret
    | apply allocating_generate
    | apply allocating_execute;
      first [ apply keeps_insert_Vehicle | apply keeps_insert_Location
            | apply keeps_insert_Inventory | apply keeps_insert_InventoryAudit
            | apply keeps_update_Vehicle | apply keeps_update_Location
            | apply keeps_update_Inventory | apply keeps_delete_Vehicle
            | apply keeps_delete_Location | apply keeps_delete_Inventory ]
    | apply allocating_pure; intros ?; reflexivity
    | apply allocating_bind; [|intros ?] ].

Ltac allocating_auto := unfold void, commit; repeat allocating_step.

Lemma allocating_update {R} (mapping : list ((R -> R) * pyval)) (c : M unit) :
  allocating c ->
  allocating (match mapping with [] => ret tt | _ => c end).
Proof. intros Hc. destruct mapping; [apply allocating_ret|done]. Qed.

Lemma allocating_perform (c : call) : allocating (perform c).
Proof.
  destruct c; simpl;
    unfold create_vehicle, update_vehicle, delete_vehicle,
           create_location, update_location, delete_location,
           create_inventory, update_inventory, delete_inventory,
           record_audit, timestamp_or_now;
    try apply allocating_update; allocating_auto.
  repeat case_match; allocating_auto.
Qed.

Lemma history_ok_step (ids : gset string) (new : list string) (w w' : world) :
  history_ok ids w -> hands_out new w w' -> history_ok ids w'.
Proof.
  intros (Hd & Hsub & Hf) (Hi & Hn & Hg & Hnew).
  rewrite Forall_forall in Hf, Hnew.
  unfold history_ok. rewrite Hi, Hg. repeat split.
  - apply NoDup_app. repeat split; [done| |done].
    intros id H1 H2. apply Hnew in H2 as [H2 _]. apply Hf in H1 as [H1 _]. done.
  - set_solver.
  - apply Forall_app; split; apply Forall_forall; intros id Hid.
    + apply Hf in Hid as (?&?&?). repeat split; [set_solver|done..].
    + pose proof Hid as Hid'. apply Hnew in Hid as [Hfresh ?].
      repeat split; [set_solver|set_solver|done].
Qed.

Lemma history_ok_run (ids : gset string) (calls : list (Time.datetime * call)) :
  forall w, history_ok ids w -> history_ok ids (run calls w).
Proof.
  induction calls as [|[t c] calls IH]; intros w Hw; simpl; [done|].
  destruct (allocating_perform c (set_clock t w)) as [new Hnew].
  assert (history_ok ids (perform c (set_clock t w)).2) as Hstep.
  { eapply history_ok_step; [|exact Hnew]. exact Hw. }
  destruct (perform c (set_clock t w)) as [[[]|e|] w']; simpl in *; auto.
Qed.

End Allocator.

(** C1.  Whatever calls are made on whatever store: the identifiers
    [generate_global_id] has returned are pairwise distinct, each is a
    string of eight decimal digits, each is in [GlobalId] and none was there
    at the start; [GlobalId] never loses an element, deletes included.  The
    next call of the allocator again returns an eight-digit identifier that
    was in neither [GlobalId] nor the history, recorded in [GlobalId] by
    the time it is returned; and it does return as soon as one of the draws
    is free. *)
Theorem generate_global_id_distinct
    (d : Store.db) (draws : list N) (t : Time.datetime)
    (calls : list (Time.datetime * Repo.call)) :
  let w := Repo.run calls (Repo.boot d draws t) in
  NoDup (Repo.issued w)
  /\ Store.GlobalId d ⊆ Store.GlobalId (Repo.store w)
  /\ (forall id, id ∈ Repo.issued w ->
        Text.digits_only 8 id = true
        /\ id ∈ Store.GlobalId (Repo.store w)
        /\ (id ∉ Store.GlobalId d))
  /\ (forall id w', Repo.generate_global_id w = (Repo.Return id, w') ->
        Text.digits_only 8 id = true
        /\ (id ∉ Store.GlobalId (Repo.store w))
        /\ (id ∉ Repo.issued w)
        /\ id ∈ Store.GlobalId (Repo.store w')
        /\ Repo.issued w' = (Repo.issued w ++ [id])%list)
  /\ (forall r, r ∈ Repo.rng w ->
        Text.format_0d 8 (Repo.randint 1 99999999 r)
          ∉ Store.GlobalId (Repo.store w) ->
        exists id w', Repo.generate_global_id w = (Repo.Return id, w')).
Proof.
  intros w.
  assert (Invariant.history_ok (Store.GlobalId d) w) as (Hnd & Hsub & Hall).
  { apply history_ok_run. repeat split; [constructor|done|constructor]. }
  rewrite Forall_forall in Hall.
  split; [done|]. split; [done|]. split; [|split].
  - intros id Hid. apply Hall in Hid as (?&?&?). done.
  - intros id w' Hgen. unfold Repo.generate_global_id in Hgen.
    pose proof (generate_global_id_loop_spec (Repo.rng w) w) as Hspec.
    rewrite Hgen in Hspec. destruct Hspec as (Hdig & Hfree & Hst & Hiss & _).
    repeat split; try done.
    + intros Hin. apply Hall in Hin as [Hin _]. done.
    + rewrite Hst. simpl. set_solver.
  - intros r Hr Hfree. by eapply generate_global_id_loop_returns.
Qed.

(** A run that creates a vehicle, deletes it and creates another one: the
    second identifier differs from the first although the first vehicle is
    gone, and both stay in [GlobalId]. *)
Lemma generate_global_id_distinct_witness :
  let t := Sample.noon in
  let w := Repo.run [(t, Repo.CreateVehicle "Truck" "T1" "VIN1" 1 0 0);
                     (t, Repo.DeleteVehicle "00000042");
                     (t, Repo.CreateVehicle "Truck" "T2" "VIN2" 2 0 0)]
                    (Repo.boot Store.empty [41; 41; 7; 3]%N t) in
  Repo.issued w = ["00000042"; "00000008"]
  /\ Store.Vehicle (Repo.store w) !! "00000042" = None
  /\ NoDup (Repo.issued w)
  /\ "00000042" ∈ Store.GlobalId (Repo.store w)
  /\ exists id w', Repo.generate_global_id w = (Repo.Return id, w').
Proof.
  intros t w.
  pose proof (generate_global_id_distinct Store.empty [41; 41; 7; 3]%N t
    [(t, Repo.CreateVehicle "Truck" "T1" "VIN1" 1 0 0);
     (t, Repo.DeleteVehicle "00000042");
     (t, Repo.CreateVehicle "Truck" "T2" "VIN2" 2 0 0)]) as (Hnd & _ & Hin & _ & Hret).
  split; [vm_compute; reflexivity|]. split; [vm_compute; reflexivity|].
  split; [exact Hnd|]. split.
  - apply Hin. apply (bool_decide_unpack _). vm_compute. exact I.
  - apply (Hret 3%N); apply (bool_decide_unpack _); vm_compute; exact I.
Defined.
(** * Orders: strings, sort keys, ORDER BY *)

Section StringOrder.

Lemma ascii_compare_refl (a : ascii) : Ascii.compare a a = Eq.
Proof. unfold Ascii.compare. apply N.compare_refl. Qed.

Lemma string_leb_refl (s : string) : String.leb s s = true.
Proof.
  unfold String.leb. induction s as [|a s IH]; simpl; [done|].
  by rewrite ascii_compare_refl.
Qed.

Lemma string_leb_trans (a b c : string) :
  String.leb a b = true -> String.leb b c = true -> String.leb a c = true.
Proof.
  unfold String.leb. revert b c.
  induction a as [|x a IH]; intros [|y b] [|z c]; simpl; try done.
  unfold Ascii.compare.
  destruct (N.compare_spec (N_of_ascii x) (N_of_ascii y)) as [Hxy|Hxy|Hxy];
    destruct (N.compare_spec (N_of_ascii y) (N_of_ascii z)) as [Hyz|Hyz|Hyz];
    try done.
  - rewrite Hxy, Hyz, N.compare_refl. apply IH.
  - intros _ _. rewrite Hxy. by rewrite (proj2 (N.compare_lt_iff _ _) Hyz).
  - intros _ _. rewrite <- Hyz. by rewrite (proj2 (N.compare_lt_iff _ _) Hxy).
  - intros _ _.
    by rewrite (proj2 (N.compare_lt_iff _ _) (N.lt_trans _ _ _ Hxy Hyz)).
Qed.

Lemma string_leb_transitive :
  Transitive (fun a b => Is_true (String.leb a b)).
Proof.
  intros a b c Hab Hbc. apply Is_true_true.
  eapply string_leb_trans; by apply Is_true_true.
Qed.

Lemma string_leb_total :
  Total (fun a b => Is_true (String.leb a b)).
Proof.
  intros a b. destruct (String.leb_total a b) as [H|H];
    [left|right]; by apply Is_true_true.
Qed.

Lemma sorted_StronglySorted (paths : list string) :
  StronglySorted (fun a b => Is_true (String.leb a b)) (Backup.sorted paths).
Proof.
  unfold Backup.sorted.
  apply (@StronglySorted_merge_sort _ _ _ string_leb_transitive
           string_leb_total).
Qed.

Lemma sorted_Permutation (paths : list string) : Backup.sorted paths ≡ₚ paths.
Proof. unfold Backup.sorted. apply merge_sort_Permutation. Qed.

End StringOrder.

Section Ordering.
Import Query.

Lemma string_compare_lt_trans (a b c : string) :
  String.compare a b = Lt -> String.compare b c = Lt -> String.compare a c = Lt.
Proof.
  intros Hab Hbc.
  assert (Hle : String.leb a c = true).
  { apply (string_leb_trans a b c); unfold String.leb; by rewrite ?Hab, ?Hbc. }
  unfold String.leb in Hle.
  destruct (String.compare a c) eqn:Hac; [|done..].
  apply String.compare_eq_iff in Hac as ->.
  rewrite String.compare_antisym, Hbc in Hab. done.
Qed.

Lemma sqlval_compare_antisym (a b : sqlval) :
  sqlval_compare a b = CompOpp (sqlval_compare b a).
Proof.
  destruct a, b; simpl; try done.
  - apply Z.compare_antisym.
  - apply String.compare_antisym.
Qed.

Lemma sqlval_compare_eq (a b : sqlval) : sqlval_compare a b = Eq -> a = b.
Proof.
  destruct a, b; simpl; try done.
  - by intros ->%Z.compare_eq.
  - by intros ->%String.compare_eq_iff.
Qed.

Lemma sqlval_compare_refl (a : sqlval) : sqlval_compare a a = Eq.
Proof.
  destruct a as [|z|s]; simpl; [done|apply Z.compare_refl|].
  induction s as [|c s IH]; simpl; [done|]. by rewrite ascii_compare_refl.
Qed.

Lemma sqlval_compare_lt_trans (a b c : sqlval) :
  sqlval_compare a b = Lt -> sqlval_compare b c = Lt -> sqlval_compare a c = Lt.
Proof.
  destruct a, b, c; simpl; try done.
  - rewrite !Z.compare_lt_iff. lia.
  - apply string_compare_lt_trans.
Qed.

Lemma keys_compare_antisym (a b : list sqlval) :
  keys_compare a b = CompOpp (keys_compare b a).
Proof.
  revert b. induction a as [|x a IH]; intros [|y b]; simpl; try done.
  rewrite (sqlval_compare_antisym x y).
  destruct (sqlval_compare y x); simpl; auto.
Qed.

Lemma keys_compare_eq (a b : list sqlval) : keys_compare a b = Eq -> a = b.
Proof.
  revert b. induction a as [|x a IH]; intros [|y b]; simpl; try done.
  destruct (sqlval_compare x y) eqn:Hxy; [|done..].
  apply sqlval_compare_eq in Hxy as ->. by intros ->%IH.
Qed.

Lemma keys_compare_refl (a : list sqlval) : keys_compare a a = Eq.
Proof.
  induction a as [|x a IH]; simpl; [done|]. by rewrite sqlval_compare_refl.
Qed.

Lemma keys_compare_lt_trans (a b c : list sqlval) :
  keys_compare a b = Lt -> keys_compare b c = Lt -> keys_compare a c = Lt.
Proof.
  revert b c. induction a as [|x a IH]; intros [|y b] [|z c]; simpl; try done.
  destruct (sqlval_compare x y) eqn:Hxy; [|intros _|done].
  - apply sqlval_compare_eq in Hxy as ->.
    destruct (sqlval_compare y z); [apply IH|done..].
  - destruct (sqlval_compare y z) eqn:Hyz; [|intros _|done].
    + apply sqlval_compare_eq in Hyz as <-. by rewrite Hxy.
    + by rewrite (sqlval_compare_lt_trans x y z).
Qed.

Lemma keys_leb_trans (a b c : list sqlval) :
  keys_leb a b = true -> keys_leb b c = true -> keys_leb a c = true.
Proof.
  unfold keys_leb.
  destruct (keys_compare a b) eqn:Hab; [|intros _|done].
  - by apply keys_compare_eq in Hab as ->.
  - destruct (keys_compare b c) eqn:Hbc; [|intros _|done].
    + apply keys_compare_eq in Hbc as <-. by rewrite Hab.
    + by rewrite (keys_compare_lt_trans a b c).
Qed.

Lemma keys_leb_total (a b : list sqlval) :
  keys_leb a b = true \/ keys_leb b a = true.
Proof.
  unfold keys_leb. rewrite (keys_compare_antisym b a).
  destruct (keys_compare a b); simpl; auto.
Qed.

Lemma keys_compare_gt_trans (a b c : list sqlval) :
  keys_compare a b = Gt -> keys_compare b c = Gt -> keys_compare a c = Gt.
Proof.
  intros Hab Hbc. rewrite keys_compare_antisym in Hab, Hbc |- *.
  destruct (keys_compare b a) eqn:Hba; try done.
  destruct (keys_compare c b) eqn:Hcb; try done.
  by rewrite (keys_compare_lt_trans c b a).
Qed.

(** The relation [ORDER BY] sorts by. *)
Lemma precedes_transitive {A} (tie : A -> Z) (key : A -> list sqlval)
    (desc : bool) :
  Transitive (fun a b => Is_true (precedes tie key desc a b)).
Proof.
  intros a b c. rewrite !Is_true_true. unfold precedes.
  destruct (keys_compare (key a) (key b)) eqn:Hab.
  - apply keys_compare_eq in Hab. rewrite Hab.
    destruct (keys_compare (key b) (key c)); try done.
    rewrite !Z.leb_le. lia.
  - destruct (keys_compare (key b) (key c)) eqn:Hbc.
    + apply keys_compare_eq in Hbc. rewrite <- Hbc, Hab. done.
    + by rewrite (keys_compare_lt_trans _ _ _ Hab Hbc).
    + by destruct desc.
  - destruct (keys_compare (key b) (key c)) eqn:Hbc.
    + apply keys_compare_eq in Hbc. rewrite <- Hbc, Hab. done.
    + by destruct desc.
    + by rewrite (keys_compare_gt_trans _ _ _ Hab Hbc).
Qed.

Lemma precedes_total {A} (tie : A -> Z) (key : A -> list sqlval)
    (desc : bool) :
  Total (fun a b => Is_true (precedes tie key desc a b)).
Proof.
  intros a b. rewrite !Is_true_true. unfold precedes.
  rewrite (keys_compare_antisym (key b) (key a)).
  destruct (keys_compare (key a) (key b)); simpl.
  - rewrite !Z.leb_le. lia.
  - destruct desc; auto.
  - destruct desc; auto.
Qed.

(** A row that precedes another has the smaller key (the larger one
    under DESC) or the same. *)
Lemma precedes_keys {A} (tie : A -> Z) (key : A -> list sqlval)
    (desc : bool) (a b : A) :
  precedes tie key desc a b = true ->
  if desc then keys_leb (key b) (key a) = true
  else keys_leb (key a) (key b) = true.
Proof.
  unfold precedes, keys_leb. rewrite (keys_compare_antisym (key b) (key a)).
  destruct (keys_compare (key a) (key b)), desc; simpl; done.
Qed.

Lemma order_by_sorted {A} (tie : A -> Z) (key : A -> list sqlval)
    (desc : bool) (rows : list A) :
  StronglySorted (fun a b => precedes tie key desc a b = true)
    (order_by tie key desc rows).
Proof.
  unfold order_by.
  pose proof (@StronglySorted_merge_sort _ _ _
                (precedes_transitive tie key desc)
                (precedes_total tie key desc) rows) as Hs.
  induction Hs as [|a l Hl IH Hall]; constructor; [done|].
  eapply Forall_impl; [exact Hall|]. intros b. simpl.
  by rewrite Is_true_true.
Qed.

Lemma StronglySorted_impl {A} (R S : A -> A -> Prop) (l : list A) :
  (forall a b, R a b -> S a b) -> StronglySorted R l -> StronglySorted S l.
Proof.
  intros HRS Hs. induction Hs as [|a l Hl IH Hall]; constructor; [done|].
  eapply Forall_impl; [exact Hall|]. auto.
Qed.

Lemma order_by_sorted_keys {A} (tie : A -> Z) (key : A -> list sqlval)
    (desc : bool) (rows : list A) :
  StronglySorted
    (fun a b => if desc then keys_leb (key b) (key a) = true
                else keys_leb (key a) (key b) = true)
    (order_by tie key desc rows).
Proof.
  eapply StronglySorted_impl; [|apply order_by_sorted].
  intros a b. apply precedes_keys.
Qed.

Lemma order_by_NoDup {A} (tie : A -> Z) (key : A -> list sqlval) (desc : bool)
    (rows : list A) :
  NoDup rows -> NoDup (order_by tie key desc rows).
Proof. unfold order_by. by rewrite merge_sort_Permutation. Qed.

Lemma StronglySorted_take {A} (R : A -> A -> Prop) (n : nat) (l : list A) :
  StronglySorted R l -> StronglySorted R (take n l).
Proof.
  intros Hs. revert n. induction Hs as [|a l Hl IH Hall]; intros [|n]; simpl;
    try constructor; auto.
  apply Forall_forall. intros b Hb. rewrite Forall_forall in Hall.
  apply Hall. by eapply subseteq_take.
Qed.

Lemma StronglySorted_drop {A} (R : A -> A -> Prop) (n : nat) (l : list A) :
  StronglySorted R l -> StronglySorted R (drop n l).
Proof.
  intros Hs. revert n. induction Hs as [|a l Hl IH Hall]; intros [|n]; simpl;
    try constructor; auto.
Qed.

Lemma limit_offset_sorted {A} (R : A -> A -> Prop) (limit offset : Z)
    (l : list A) :
  StronglySorted R l -> StronglySorted R (limit_offset limit offset l).
Proof.
  intros Hs. unfold limit_offset.
  destruct (limit <? 0); [|apply StronglySorted_take];
    by apply StronglySorted_drop.
Qed.

Lemma limit_offset_subseteq {A} (limit offset : Z) (l : list A) :
  limit_offset limit offset l ⊆ l.
Proof.
  unfold limit_offset. destruct (limit <? 0).
  - apply subseteq_drop.
  - etrans; [apply subseteq_take|apply subseteq_drop].
Qed.


Lemma rows_NoDup_keyed {K A} `{Countable K} (t : gmap K A) (key : A -> K) :
  (forall k a, t !! k = Some a -> key a = k) -> NoDup (key <$> rows t).
Proof.
  intros Hkey. unfold rows.
  assert (Heq : key <$> (map_to_list t).*2 = (map_to_list t).*1).
  { rewrite <- list_fmap_compose. apply Forall_fmap_ext_1, Forall_forall.
    intros [k a] Hka. rewrite elem_of_map_to_list in Hka. simpl. eauto. }
  rewrite Heq. apply NoDup_fst_map_to_list.
Qed.

End Ordering.

(** * Facts about queries *)

Section QueryFacts.
Import Store.

Lemma rows_elem {K A} `{Countable K} (t : gmap K A) (k : K) (a : A) :
  t !! k = Some a -> a ∈ Query.rows t.
Proof.
  intros Hk. unfold Query.rows. apply list_elem_of_fmap.
  exists (k, a). split; [done|]. by apply elem_of_map_to_list.
Qed.

Lemma order_by_Permutation {A} (tie : A -> Z) (key : A -> list Query.sqlval)
    (desc : bool) (l : list A) :
  Query.order_by tie key desc l ≡ₚ l.
Proof. unfold Query.order_by. apply merge_sort_Permutation. Qed.

Lemma order_by_elem {A} (tie : A -> Z) (key : A -> list Query.sqlval)
    (desc : bool) (l : list A) (a : A) :
  a ∈ Query.order_by tie key desc l <-> a ∈ l.
Proof. by rewrite order_by_Permutation. Qed.

Lemma order_by_length {A} (tie : A -> Z) (key : A -> list Query.sqlval)
    (desc : bool) (l : list A) :
  length (Query.order_by tie key desc l) = length l.
Proof. by rewrite order_by_Permutation. Qed.

End QueryFacts.

(** * Deleting *)

(** C2.  A location that an inventory item refers to cannot be deleted:
    [delete_location] raises the [IntegrityError] of the foreign key (the
    constraint violation of the store), and nothing at all has changed
    afterwards, the location row and every inventory row included. *)
Theorem delete_location_restricted
    (w : Repo.world) (location_id asset_id : string)
    (l : Location.t) (i : InventoryItem.t) :
  Store.Location (Repo.store w) !! location_id = Some l ->
  Store.Inventory (Repo.store w) !! asset_id = Some i ->
  InventoryItem.location_id i = location_id ->
  Repo.delete_location location_id w
  = (Repo.Raise (Store.IntegrityError Store.ForeignKey), w).
Proof.
  intros Hl Hi Href.
  unfold Repo.delete_location, Repo.bind, Repo.execute, Store.delete_Location.
  simpl. rewrite Hl. rewrite decide_True; [done|].
  exists asset_id, i. done.
Qed.

Lemma delete_location_restricted_witness :
  Repo.delete_location "00000008" Sample.depot
  = (Repo.Raise (Store.IntegrityError Store.ForeignKey), Sample.depot).
Proof.
  apply (delete_location_restricted Sample.depot "00000008" "00000004"
           Sample.shelf Sample.oil);
    vm_compute; reflexivity.
Defined.

(** C3.  Deleting a vehicle keeps every location that referred to it:
    [delete_vehicle] returns, [get_location] still finds the location,
    [list_locations] still lists it (whatever order the engine gives to
    locations in the same slot), its [vehicle_id] is NULL and every other
    column is what it was. *)
Theorem delete_vehicle_sets_null
    (w : Repo.world) (vehicle_id location_id : string)
    (v : Vehicle.t) (l : Location.t) :
  Store.Vehicle (Repo.store w) !! vehicle_id = Some v ->
  Store.Location (Repo.store w) !! location_id = Some l ->
  Location.vehicle_id l = Some vehicle_id ->
  let l' := Location.mk (Location.location_id l) None (Location.side l)
              (Location.row l) (Location.bin l) (Location.created_at l)
              (Location.updated_at l) (Location.last_audited_at l) in
  exists w',
    Repo.delete_vehicle vehicle_id w = (Repo.Return tt, w')
    /\ Repo.get_location location_id w' = (Repo.Return (Some l'), w')
    /\ forall tie,
         exists ls, Repo.list_locations tie None w' = (Repo.Return ls, w')
                    /\ l' ∈ ls.
Proof.
  intros Hv Hl Href l'.
  unfold Repo.delete_vehicle, Repo.bind, Repo.execute, Store.delete_Vehicle.
  simpl. rewrite Hv. eexists; split; [reflexivity|].
  assert ((Store.detach vehicle_id <$> Store.Location (Repo.store w))
            !! location_id = Some l') as Hl'.
  { rewrite lookup_fmap, Hl. simpl. unfold Store.detach.
    by rewrite decide_True. }
  unfold Repo.get_location, Repo.list_locations. simpl. rewrite Hl'.
  split; [done|]. intros tie. eexists; split; [reflexivity|].
  apply order_by_elem. by eapply rows_elem.
Qed.

Lemma delete_vehicle_sets_null_witness :
  exists w',
    Repo.delete_vehicle "00000042" Sample.depot = (Repo.Return tt, w')
    /\ Repo.get_location "00000008" w'
       = (Repo.Return (Some (Location.mk "00000008" None "Left" 1 2
             Sample.stamp Sample.stamp None)), w')
    /\ forall tie,
         exists ls, Repo.list_locations tie None w' = (Repo.Return ls, w')
                    /\ Location.mk "00000008" None "Left" 1 2
                         Sample.stamp Sample.stamp None ∈ ls.
Proof.
  apply (delete_vehicle_sets_null Sample.depot "00000042" "00000008"
           Sample.truck Sample.shelf);
    vm_compute; reflexivity.
Defined.

(** * Creating *)

Section Creating.
Import Store Repo.


Lemma generate_global_id_same_rows (w : world) :
  Frame.same_rows (store w) (store (generate_global_id w).2).
Proof.
  unfold generate_global_id.
  pose proof (generate_global_id_loop_spec (rng w) w) as Hspec.
  destruct (generate_global_id_loop (rng w) w) as [[id|e|] w1]; simpl.
  - destruct Hspec as (_ & _ & -> & _). done.
  - done.
  - destruct Hspec as [-> _]. done.
Qed.






End Creating.




(** * Updating *)

Section Updating.
Import Store Repo.

Lemma set_store_same (w : world) : set_store (store w) w = w.
Proof. by destruct w. Qed.

(** What an UPDATE run by [execute] can do: raise and change nothing, or
    rewrite the row under [key]. *)
Lemma execute_update_Vehicle (params : list pyval)
    (fields : list (Vehicle.t -> Vehicle.t)) (key : string) (w : world) :
  let r := execute params (update_Vehicle fields key) w in
  (r.2 = w /\ (r.1 = Return tt -> Vehicle (store w) !! key = None
                                   \/ forallb bindable params = true))
  \/ exists v, Vehicle (store w) !! key = Some v
               /\ forallb bindable params = true
               /\ vehicle_type_ok (assign fields v) = true
               /\ r = (Return tt,
                       set_store (set_Vehicle (<[key := assign fields v]>
                                                 (Vehicle (store w))) (store w)) w).
Proof.
  unfold execute, update_Vehicle.
  destruct (forallb bindable params); [|left; simpl; by split].
  destruct (Vehicle (store w) !! key) as [v|] eqn:Hv; simpl.
  - destruct (vehicle_type_ok (assign fields v)) eqn:Hok; simpl.
    + right. by exists v.
    + left. by split; [|right].
  - left. rewrite set_store_same. split; [done|by left].
Qed.

Lemma execute_update_Location (params : list pyval)
    (fields : list (Location.t -> Location.t)) (key : string) (w : world) :
  let r := execute params (update_Location fields key) w in
  r.2 = w
  \/ exists l, Location (store w) !! key = Some l
               /\ r = (Return tt,
                       set_store (set_Location (<[key := assign fields l]>
                                                  (Location (store w))) (store w)) w).
Proof.
  unfold execute, update_Location.
  destruct (forallb bindable params); [|by left].
  destruct (Location (store w) !! key) as [l|] eqn:Hl; simpl.
  - repeat case_decide; simpl; [by left| |by left]. right. by exists l.
  - left. by rewrite set_store_same.
Qed.

Lemma execute_update_Inventory (params : list pyval)
    (fields : list (InventoryItem.t -> InventoryItem.t)) (key : string)
    (w : world) :
  let r := execute params (update_Inventory fields key) w in
  r.2 = w
  \/ exists i, Inventory (store w) !! key = Some i
               /\ r = (Return tt,
                       set_store (set_Inventory (<[key := assign fields i]>
                                                   (Inventory (store w))) (store w)) w).
Proof.
  unfold execute, update_Inventory.
  destruct (forallb bindable params); [|by left].
  destruct (Inventory (store w) !! key) as [i|] eqn:Hi; simpl.
  - case_decide; simpl; [|by left]. right. by exists i.
  - left. by rewrite set_store_same.
Qed.

(** An UPDATE whose key matches no row: nothing is raised by the engine and
    nothing changes. *)
Lemma execute_update_missing (params : list pyval) (stmt : db -> result)
    (w : world) :
  stmt (store w) = Done (store w) ->
  (execute params stmt ;;; commit) w
  = (if forallb bindable params then Return tt else Raise OverflowError, w).
Proof.
  intros Hs. unfold bind, execute, commit, ret. rewrite Hs.
  destruct (forallb bindable params); [|done]. by rewrite set_store_same.
Qed.


Lemma update_location_missing (w : world) (location_id : string)
    (side : option string) (row bin : option Z)
    (vehicle_id last_audited_at : option string) :
  Location (store w) !! location_id = None ->
  update_location location_id side row bin vehicle_id last_audited_at w
  = (if Frame.fits row && Frame.fits bin
     then Return tt else Raise OverflowError, w).
Proof.
  intros Hl. unfold update_location.
  assert (forall fields, update_Location fields location_id (store w) = Done (store w))
    as Hs by (intros; unfold update_Location; by rewrite Hl).
  destruct side as [sd|], row as [r|], bin as [b|], vehicle_id as [vh|],
    last_audited_at as [au|]; simpl;
    try (unfold bind at 1, iso_now; rewrite execute_update_missing by apply Hs;
         simpl; rewrite ?andb_true_r, ?andb_assoc);
    try reflexivity.
Qed.

Lemma update_inventory_missing (w : world) (asset_id : string)
    (description location_id : option string) (consumable : option bool)
    (manufacturer model serial_number : option string) :
  Inventory (store w) !! asset_id = None ->
  update_inventory asset_id description location_id consumable manufacturer
                   model serial_number w
  = (Return tt, w).
Proof.
  intros Hi. unfold update_inventory.
  assert (forall fields, update_Inventory fields asset_id (store w) = Done (store w))
    as Hs by (intros; unfold update_Inventory; by rewrite Hi).
  destruct description as [ds|], location_id as [lc|], consumable as [[]|],
    manufacturer as [mf|], model as [md|], serial_number as [sn|]; simpl;
    try (unfold bind at 1, iso_now; rewrite execute_update_missing by apply Hs;
         simpl);
    try reflexivity.
Qed.

End Updating.




(** C6.  On a stored vehicle (its type passing the table's CHECK, as the
    type of every vehicle the repository stores does, [checked_run]),
    [update_vehicle] with the mileage alone returns and rewrites that one
    row: the mileage is the new one, [updated_at] is the clock's reading,
    and the id, type, name, VIN, number, last service and [created_at] are
    what they were.  Every other vehicle, every other table, [GlobalId] and
    the rest of the world are untouched.  (A mileage beyond 64 bits is
    refused by the binding, and then nothing at all changes.)  With no field
    at all the call returns and nothing changes. *)
Theorem update_vehicle_mileage_only
    (w : Repo.world) (vehicle_id : string) (v : Vehicle.t) (mileage : Z) :
  Store.Vehicle (Repo.store w) !! vehicle_id = Some v ->
  Store.vehicle_type_ok v = true ->
  let now := Time.isoformat (Time.replace_microsecond 0 (Repo.clock w)) in
  let v' := Vehicle.mk (Vehicle.vehicle_id v) (Vehicle.vehicle_type v)
              (Vehicle.vehicle_name v) (Vehicle.vin v)
              (Vehicle.vehicle_number v) mileage (Vehicle.last_service v)
              (Vehicle.created_at v) now in
  (Store.fits_int64 mileage = true ->
   exists w',
     Repo.update_vehicle vehicle_id None None None None (Some mileage) None w
     = (Repo.Return tt, w')
     /\ Store.Vehicle (Repo.store w') !! vehicle_id = Some v'
     /\ (forall k, k <> vehicle_id ->
           Store.Vehicle (Repo.store w') !! k = Store.Vehicle (Repo.store w) !! k)
     /\ Store.Location (Repo.store w') = Store.Location (Repo.store w)
     /\ Store.Inventory (Repo.store w') = Store.Inventory (Repo.store w)
     /\ Store.InventoryAudit (Repo.store w')
        = Store.InventoryAudit (Repo.store w)
     /\ Store.GlobalId (Repo.store w') = Store.GlobalId (Repo.store w)
     /\ Repo.rng w' = Repo.rng w /\ Repo.issued w' = Repo.issued w)
  /\ (Store.fits_int64 mileage = false ->
      Repo.update_vehicle vehicle_id None None None None (Some mileage) None w
      = (Repo.Raise Store.OverflowError, w))
  /\ Repo.update_vehicle vehicle_id None None None None None None w
     = (Repo.Return tt, w).
Proof.
  intros Hv Hok now v'. split; [|split; [|reflexivity]].
  - intros Hfit.
    unfold Repo.update_vehicle, Repo.bind, Repo.iso_now, Repo.execute,
      Repo.commit, Repo.ret.
    simpl. rewrite Hfit. simpl. unfold Store.update_Vehicle. rewrite Hv.
    subst v'. destruct v as [id ty name vin num mil svc created updated].
    unfold Store.vehicle_type_ok in *. simpl in *. rewrite Hok. simpl.
    eexists; split; [reflexivity|]. simpl.
    split; [by rewrite lookup_insert_eq|].
    split; [intros k Hk; by rewrite lookup_insert_ne|]. done.
  - intros Hfit.
    unfold Repo.update_vehicle, Repo.bind, Repo.iso_now, Repo.execute.
    simpl. by rewrite Hfit.
Qed.

Lemma update_vehicle_mileage_only_witness :
  (exists w',
      Repo.update_vehicle "00000042" None None None None (Some 500) None
                          Sample.depot
      = (Repo.Return tt, w')
      /\ Store.Vehicle (Repo.store w') !! "00000042"
         = Some (Vehicle.mk "00000042" "Truck" "T1" "VIN1" 1 500 1000
                   Sample.stamp Sample.stamp)
      /\ (forall k, k <> "00000042" ->
            Store.Vehicle (Repo.store w') !! k
            = Store.Vehicle (Repo.store Sample.depot) !! k)
      /\ Store.Location (Repo.store w') = Store.Location (Repo.store Sample.depot)
      /\ Store.Inventory (Repo.store w')
         = Store.Inventory (Repo.store Sample.depot)
      /\ Store.InventoryAudit (Repo.store w')
         = Store.InventoryAudit (Repo.store Sample.depot)
      /\ Store.GlobalId (Repo.store w') = Store.GlobalId (Repo.store Sample.depot)
      /\ Repo.rng w' = Repo.rng Sample.depot
      /\ Repo.issued w' = Repo.issued Sample.depot)
  /\ Repo.update_vehicle "00000042" None None None None None None Sample.depot
     = (Repo.Return tt, Sample.depot).
Proof.
  destruct (update_vehicle_mileage_only Sample.depot "00000042" Sample.truck
              500) as (Hfit & _ & Hnone); [vm_compute; reflexivity..|].
  split; [apply Hfit; reflexivity|exact Hnone].
Defined.

(** * The CHECK on vehicle types holds in every store the repository builds *)

Section Checked.
Import Store Repo Invariant.

Lemma checking_ret {A} (a : A) : checking (ret a).
Proof. by intros w. Qed.

Lemma checking_bind {A B} (c : M A) (k : A -> M B) :
  checking c -> (forall a, checking (k a)) -> checking (bind c k).
Proof.
  intros Hc Hk w Hw. unfold bind. specialize (Hc w Hw).
  destruct (c w) as [[a|e|] w1]; simpl in *; [|done..]. by apply Hk.
Qed.

Lemma checking_execute (params : list pyval) (stmt : db -> result) :
  keeps_checked stmt -> checking (execute params stmt).
Proof.
  intros Hk w Hw. unfold execute.
  destruct (forallb bindable params); [|done].
  destruct (stmt (store w)) as [d|e] eqn:Hs; simpl; [|done]. by eapply Hk.
Qed.

Lemma checking_generate : checking generate_global_id.
Proof.
  intros w Hw. destruct (generate_global_id_same_rows w) as (Hv & _).
  unfold Frame.checked. by rewrite Hv.
Qed.

Lemma checking_pure {A} (c : M A) : (forall w, (c w).2 = w) -> checking c.
Proof. intros Hc w Hw. by rewrite Hc. Qed.

Ltac same_vehicles :=
  intros d d';
  repeat first [ progress simpl
               | case_match; try discriminate
               | case_decide; try discriminate ];
  intros [= <-] Hd; exact Hd.

Lemma checked_insert_Vehicle v : keeps_checked (insert_Vehicle v).
Proof.
  intros d d'. unfold insert_Vehicle.
  destruct (vehicle_type_ok v) eqn:Hok; simpl; [|done].
  case_decide; [done|]. intros [= <-] Hd. by apply map_Forall_insert_2.
Qed.

Lemma checked_update_Vehicle f k : keeps_checked (update_Vehicle f k).
Proof.
  intros d d'. unfold update_Vehicle.
  destruct (Vehicle d !! k) as [v|]; [|by intros [= <-]].
  destruct (vehicle_type_ok (assign f v)) eqn:Hok; simpl; [|done].
  intros [= <-] Hd. by apply map_Forall_insert_2.
Qed.

Lemma checked_delete_Vehicle k : keeps_checked (delete_Vehicle k).
Proof.
  intros d d'. unfold delete_Vehicle.
  destruct (Vehicle d !! k) as [v|]; [|by intros [= <-]].
  intros [= <-] Hd. by apply map_Forall_delete.
Qed.

Lemma checked_insert_Location l : keeps_checked (insert_Location l).
Proof. unfold insert_Location. same_vehicles. Qed.
Lemma checked_insert_Inventory i : keeps_checked (insert_Inventory i).
Proof. unfold insert_Inventory. same_vehicles. Qed.
Lemma checked_insert_InventoryAudit row :
  keeps_checked (insert_InventoryAudit row).
Proof. unfold insert_InventoryAudit. same_vehicles. Qed.
Lemma checked_update_Location f k : keeps_checked (update_Location f k).
Proof. unfold update_Location. same_vehicles. Qed.
Lemma checked_update_Inventory f k : keeps_checked (update_Inventory f k).
Proof. unfold update_Inventory. same_vehicles. Qed.
Lemma checked_delete_Location k : keeps_checked (delete_Location k).
Proof. unfold delete_Location. same_vehicles. Qed.
Lemma checked_delete_Inventory k : keeps_checked (delete_Inventory k).
Proof. unfold delete_Inventory. same_vehicles. Qed.

Ltac checking_step :=
  first
    [ apply checking_ret
    | apply checking_generate
    | apply checking_execute;
      first [ apply checked_insert_Vehicle | apply checked_insert_Location
            | apply checked_insert_Inventory
            | apply checked_insert_InventoryAudit
            | apply checked_update_Vehicle | apply checked_update_Location
            | apply checked_update_Inventory | apply checked_delete_Vehicle
            | apply checked_delete_Location | apply checked_delete_Inventory ]
    | apply checking_pure; intros ?; reflexivity
    | apply checking_bind; [|intros ?] ].

Lemma checking_update {R} (mapping : list ((R -> R) * pyval)) (c : M unit) :
  checking c -> checking (match mapping with [] => ret tt | _ => c end).
Proof. intros Hc. destruct mapping; [apply checking_ret|done]. Qed.

Lemma checking_perform (c : call) : checking (perform c).
Proof.
  destruct c; simpl;
    unfold create_vehicle, update_vehicle, delete_vehicle,
           create_location, update_location, delete_location,
           create_inventory, update_inventory, delete_inventory,
           record_audit, timestamp_or_now, void, commit;
    try apply checking_update; repeat checking_step.
  repeat case_match; repeat checking_step.
Qed.

(** Every run keeps the vehicles' types checked; the empty store has
    none to check. *)
Lemma checked_run (calls : list (Time.datetime * call)) (w : world) :
  Frame.checked (store w) -> Frame.checked (store (run calls w)).
Proof.
  revert w. induction calls as [|[t c] calls IH]; intros w Hw; simpl; [done|].
  pose proof (checking_perform c (set_clock t w) Hw) as Hstep.
  destruct (perform c (set_clock t w)) as [[[]|e|] w']; simpl in *; auto.
Qed.

Lemma checked_empty : Frame.checked Store.empty.
Proof. apply map_Forall_empty. Qed.

End Checked.

(** * Updates and optional columns *)

Section Optional.
Import Store Repo.

Lemma keeps_optional_refl (d : db) : Frame.keeps_optional d d.
Proof. split; intros k x Hx; exists x; done. Qed.

(** The location row under the updated key after [update_location]: each
    optional column holds its old value or the one the caller provided. *)
Lemma update_location_row (w : world) (location_id : string)
    (side : option string) (row bin : option Z)
    (vehicle_id last_audited_at : option string) (l : Location.t) :
  Location (store w) !! location_id = Some l ->
  let w' := (update_location location_id side row bin vehicle_id
                             last_audited_at w).2 in
  Vehicle (store w') = Vehicle (store w)
  /\ Inventory (store w') = Inventory (store w)
  /\ (forall k, k <> location_id ->
        Location (store w') !! k = Location (store w) !! k)
  /\ exists l', Location (store w') !! location_id = Some l'
       /\ (Location.vehicle_id l' = Location.vehicle_id l
           \/ is_Some vehicle_id /\ Location.vehicle_id l' = vehicle_id)
       /\ (Location.last_audited_at l' = Location.last_audited_at l
           \/ is_Some last_audited_at
              /\ Location.last_audited_at l' = last_audited_at).
Proof.
  intros Hl. unfold update_location.
  destruct side as [sd|], row as [r|], bin as [b|], vehicle_id as [vh|],
    last_audited_at as [au|]; simpl;
    try (unfold bind, iso_now, commit, ret;
         match goal with
         | |- context [execute ?p (update_Location ?f ?k) ?w0] =>
             destruct (execute_update_Location p f k w0) as [Hsame|(l0 & Hl0 & ->)];
             [ destruct (execute p (update_Location f k) w0) as [[[]|e|] w1];
               simpl in Hsame; subst w1
             | rewrite Hl in Hl0; injection Hl0 as <- ]
         end);
    simpl;
    (split; [done|]); (split; [done|]);
    (split; [intros k Hk; by rewrite ?lookup_insert_ne|]);
    rewrite ?lookup_insert_eq; eexists; (split; [done|]);
    unfold assign; simpl;
    repeat (split; [first [by left | right; split; [by eexists|done]]|]);
    first [by left | right; split; [by eexists|done]].
Qed.

Lemma update_inventory_row (w : world) (asset_id : string)
    (description location_id : option string) (consumable : option bool)
    (manufacturer model serial_number : option string) (i : InventoryItem.t) :
  Inventory (store w) !! asset_id = Some i ->
  let w' := (update_inventory asset_id description location_id consumable
                              manufacturer model serial_number w).2 in
  Vehicle (store w') = Vehicle (store w)
  /\ Location (store w') = Location (store w)
  /\ (forall k, k <> asset_id ->
        Inventory (store w') !! k = Inventory (store w) !! k)
  /\ exists i', Inventory (store w') !! asset_id = Some i'
       /\ (InventoryItem.manufacturer i' = InventoryItem.manufacturer i
           \/ is_Some manufacturer /\ InventoryItem.manufacturer i' = manufacturer)
       /\ (InventoryItem.model i' = InventoryItem.model i
           \/ is_Some model /\ InventoryItem.model i' = model)
       /\ (InventoryItem.serial_number i' = InventoryItem.serial_number i
           \/ is_Some serial_number
              /\ InventoryItem.serial_number i' = serial_number).
Proof.
  intros Hi. unfold update_inventory.
  destruct description as [ds|], location_id as [lc|], consumable as [[]|],
    manufacturer as [mf|], model as [md|], serial_number as [sn|]; simpl;
    try (unfold bind, iso_now, commit, ret;
         match goal with
         | |- context [execute ?p (update_Inventory ?f ?k) ?w0] =>
             destruct (execute_update_Inventory p f k w0) as [Hsame|(i0 & Hi0 & ->)];
             [ destruct (execute p (update_Inventory f k) w0) as [[[]|e|] w1];
               simpl in Hsame; subst w1
             | rewrite Hi in Hi0; injection Hi0 as <- ]
         end);
    simpl;
    (split; [done|]); (split; [done|]);
    (split; [intros k Hk; by rewrite ?lookup_insert_ne|]);
    rewrite ?lookup_insert_eq; eexists; (split; [done|]);
    unfold assign; simpl;
    repeat (split; [first [by left | right; split; [by eexists|done]]|]);
    first [by left | right; split; [by eexists|done]].
Qed.

Lemma update_vehicle_other_tables (w : world) (vehicle_id : string)
    (vehicle_type vehicle_name vin : option string)
    (vehicle_number mileage last_service : option Z) :
  let w' := (update_vehicle vehicle_id vehicle_type vehicle_name vin
                            vehicle_number mileage last_service w).2 in
  Location (store w') = Location (store w)
  /\ Inventory (store w') = Inventory (store w).
Proof.
  unfold update_vehicle.
  destruct vehicle_type as [ty|], vehicle_name as [nm|], vin as [vn|],
    vehicle_number as [n|], mileage as [m|], last_service as [sv|]; simpl;
    try (unfold bind, iso_now, commit, ret;
         match goal with
         | |- context [execute ?p (update_Vehicle ?f ?k) ?w0] =>
             destruct (execute_update_Vehicle p f k w0)
               as [[Hsame _]|(v0 & _ & _ & _ & ->)];
             [ destruct (execute p (update_Vehicle f k) w0) as [[[]|e|] w1];
               simpl in Hsame; subst w1 | ]
         end);
    done.
Qed.

Lemma keeps_optional_perform (c : call) (w : world) :
  Frame.is_update c = true ->
  Frame.keeps_optional (store w) (store (perform c w).2).
Proof.
  destruct c; try discriminate; intros _; simpl.
  - destruct (update_vehicle_other_tables w vehicle_id vehicle_type
                vehicle_name vin vehicle_number mileage last_service)
      as [Hl Hi].
    unfold Frame.keeps_optional. rewrite Hl, Hi. apply keeps_optional_refl.
  - split.
    + intros k l Hk. destruct (decide (k = location_id)) as [->|Hne].
      * destruct (update_location_row w location_id side row bin vehicle_id
                    last_audited_at l Hk) as (_ & _ & _ & l' & Hl' & Hv & Ha).
        exists l'. split; [done|]. split.
        -- destruct Hv as [->|[? ->]]; done.
        -- destruct Ha as [->|[? ->]]; done.
      * exists l. split; [|done].
        destruct (Location (store w) !! location_id) as [l0|] eqn:Hl0.
        -- destruct (update_location_row w location_id side row bin vehicle_id
                       last_audited_at l0 Hl0) as (_ & _ & Hother & _).
           by rewrite Hother.
        -- by rewrite update_location_missing.
    + intros k i Hk. exists i. split; [|done].
      destruct (Location (store w) !! location_id) as [l0|] eqn:Hl0.
      * destruct (update_location_row w location_id side row bin vehicle_id
                    last_audited_at l0 Hl0) as (_ & -> & _). done.
      * by rewrite update_location_missing.
  - split.
    + intros k l Hk. exists l. split; [|done].
      destruct (Inventory (store w) !! asset_id) as [i0|] eqn:Hi0.
      * destruct (update_inventory_row w asset_id description location_id
                    consumable manufacturer model serial_number i0 Hi0)
          as (_ & -> & _). done.
      * by rewrite update_inventory_missing.
    + intros k i Hk. destruct (decide (k = asset_id)) as [->|Hne].
      * destruct (update_inventory_row w asset_id description location_id
                    consumable manufacturer model serial_number i Hk)
          as (_ & _ & _ & i' & Hi' & Hm & Hd & Hs).
        exists i'. split; [done|]. split; [|split].
        -- destruct Hm as [->|[? ->]]; done.
        -- destruct Hd as [->|[? ->]]; done.
        -- destruct Hs as [->|[? ->]]; done.
      * exists i. split; [|done].
        destruct (Inventory (store w) !! asset_id) as [i0|] eqn:Hi0.
        -- destruct (update_inventory_row w asset_id description location_id
                       consumable manufacturer model serial_number i0 Hi0)
             as (_ & _ & Hother & _).
           by rewrite Hother.
        -- by rewrite update_inventory_missing.
Qed.

End Optional.

(** C10.  No update method clears an optional column.  After any call of
    [update_vehicle], [update_location] or [update_inventory], whether it
    returns or raises, every location and every inventory item is still
    stored, and a [vehicle_id], [last_audited_at], [manufacturer], [model] or
    [serial_number] that held a value still holds one.  And [None] for such
    a field is "not provided": the column of the updated row keeps the very
    value it had. *)
Theorem update_never_clears_optional :
  (forall (c : Repo.call) (w : Repo.world),
      Frame.is_update c = true ->
      Frame.keeps_optional (Repo.store w) (Repo.store (Repo.perform c w).2))
  /\ (forall (w : Repo.world) (location_id : string) (l : Location.t)
             (side : option string) (row bin : option Z)
             (vehicle_id last_audited_at : option string),
        Store.Location (Repo.store w) !! location_id = Some l ->
        exists l',
          Store.Location
            (Repo.store (Repo.update_location location_id side row bin
                           vehicle_id last_audited_at w).2) !! location_id
          = Some l'
          /\ (vehicle_id = None ->
              Location.vehicle_id l' = Location.vehicle_id l)
          /\ (last_audited_at = None ->
              Location.last_audited_at l' = Location.last_audited_at l))
  /\ (forall (w : Repo.world) (asset_id : string) (i : InventoryItem.t)
             (description location_id : option string)
             (consumable : option bool)
             (manufacturer model serial_number : option string),
        Store.Inventory (Repo.store w) !! asset_id = Some i ->
        exists i',
          Store.Inventory
            (Repo.store (Repo.update_inventory asset_id description
                           location_id consumable manufacturer model
                           serial_number w).2) !! asset_id
          = Some i'
          /\ (manufacturer = None ->
              InventoryItem.manufacturer i' = InventoryItem.manufacturer i)
          /\ (model = None -> InventoryItem.model i' = InventoryItem.model i)
          /\ (serial_number = None ->
              InventoryItem.serial_number i' = InventoryItem.serial_number i)).
Proof.
  split; [exact keeps_optional_perform|]. split.
  - intros w location_id l side row bin vehicle_id last_audited_at Hl.
    destruct (update_location_row w location_id side row bin vehicle_id
                last_audited_at l Hl) as (_ & _ & _ & l' & Hl' & Hv & Ha).
    exists l'. split; [done|]. split; intros ->.
    + by destruct Hv as [?|[[? [=]] _]].
    + by destruct Ha as [?|[[? [=]] _]].
  - intros w asset_id i description location_id consumable manufacturer model
      serial_number Hi.
    destruct (update_inventory_row w asset_id description location_id
                consumable manufacturer model serial_number i Hi)
      as (_ & _ & _ & i' & Hi' & Hm & Hd & Hs).
    exists i'. split; [done|]. split; [|split]; intros ->.
    + by destruct Hm as [?|[[? [=]] _]].
    + by destruct Hd as [?|[[? [=]] _]].
    + by destruct Hs as [?|[[? [=]] _]].
Qed.

(** On the sample depot: the form's save with every optional field left
    blank, which the user interface sends as [None], keeps the shelf on its
    vehicle and the jack's manufacturer. *)
Lemma update_never_clears_optional_witness :
  Frame.keeps_optional (Repo.store Sample.depot)
    (Repo.store
       (Repo.perform
          (Repo.UpdateLocation "00000008" (Some "Right") (Some 3) (Some 4)
             None None) Sample.depot).2)
  /\ (exists l',
        Store.Location
          (Repo.store (Repo.update_location "00000008" (Some "Right") (Some 3)
                         (Some 4) None None Sample.depot).2) !! "00000008"
        = Some l'
        /\ Location.vehicle_id l' = Some "00000042")
  /\ (exists i',
        Store.Inventory
          (Repo.store (Repo.update_inventory "00000012" (Some "jack") None
                         (Some false) None None None Sample.depot).2)
          !! "00000012"
        = Some i'
        /\ InventoryItem.manufacturer i' = Some "Acme").
Proof.
  destruct update_never_clears_optional as (Hall & Hloc & Hinv).
  split; [|split].
  - apply Hall. reflexivity.
  - destruct (Hloc Sample.depot "00000008" Sample.shelf (Some "Right") (Some 3)
                (Some 4) None None) as (l' & Hl' & Hv & _);
      [vm_compute; reflexivity|].
    exists l'. split; [exact Hl'|]. rewrite Hv; reflexivity.
  - destruct (Hinv Sample.depot "00000012" Sample.jack (Some "jack") None
                (Some false) None None None) as (i' & Hi' & Hm & _);
      [vm_compute; reflexivity|].
    exists i'. split; [exact Hi'|]. rewrite Hm; reflexivity.
Defined.

(** * Timestamps *)

Section Stamps.
Import Store Repo.

Lemma execute_update_Vehicle_on (params : list pyval)
    (fields : list (Vehicle.t -> Vehicle.t)) (key : string) (w : world)
    (v : Vehicle.t) :
  Vehicle (store w) !! key = Some v ->
  execute params (update_Vehicle fields key) w
  = if forallb bindable params then
      if vehicle_type_ok (assign fields v)
      then (Return tt,
            set_store (set_Vehicle (<[key := assign fields v]> (Vehicle (store w)))
                         (store w)) w)
      else (Raise (IntegrityError Check), w)
    else (Raise OverflowError, w).
Proof.
  intros Hv. unfold execute, update_Vehicle. rewrite Hv.
  destruct (forallb bindable params); [|done].
  by destruct (vehicle_type_ok (assign fields v)).
Qed.

Lemma execute_update_Location_on (params : list pyval)
    (fields : list (Location.t -> Location.t)) (key : string) (w w' : world)
    (l : Location.t) :
  Location (store w) !! key = Some l ->
  execute params (update_Location fields key) w = (Return tt, w') ->
  w' = set_store (set_Location (<[key := assign fields l]> (Location (store w)))
                    (store w)) w.
Proof.
  intros Hl. unfold execute, update_Location. rewrite Hl.
  destruct (forallb bindable params); [|done].
  repeat case_decide; simpl; by intros [= <-].
Qed.

Lemma execute_update_Inventory_on (params : list pyval)
    (fields : list (InventoryItem.t -> InventoryItem.t)) (key : string)
    (w w' : world) (i : InventoryItem.t) :
  Inventory (store w) !! key = Some i ->
  execute params (update_Inventory fields key) w = (Return tt, w') ->
  w' = set_store (set_Inventory (<[key := assign fields i]> (Inventory (store w)))
                    (store w)) w.
Proof.
  intros Hi. unfold execute, update_Inventory. rewrite Hi.
  destruct (forallb bindable params); [|done].
  case_decide; simpl; by intros [= <-].
Qed.

(** [execute stmt ;;; commit] returns exactly when [execute stmt] does. *)
Lemma execute_commit_returns (params : list pyval) (stmt : db -> result)
    (w w' : world) :
  (execute params stmt ;;; commit) w = (Return tt, w') ->
  execute params stmt w = (Return tt, w').
Proof.
  unfold bind, commit, ret.
  destruct (execute params stmt w) as [[[]|e|] w1]; by intros [= <-].
Qed.

Lemma execute_returns (params : list pyval) (stmt : db -> result)
    (w w' : world) :
  execute params stmt w = (Return tt, w') ->
  exists d, stmt (store w) = Done d /\ w' = set_store d w.
Proof.
  unfold execute. destruct (forallb bindable params); [|done].
  destruct (stmt (store w)) as [d|e]; [|done]. intros [= <-]. by exists d.
Qed.

Lemma insert_Vehicle_done (v : Vehicle.t) (d d' : db) :
  insert_Vehicle v d = Done d' -> Vehicle d' !! Vehicle.vehicle_id v = Some v.
Proof.
  unfold insert_Vehicle. destruct (negb (vehicle_type_ok v)); [done|].
  case_decide; [done|]. intros [= <-]. simpl. by rewrite lookup_insert_eq.
Qed.

Lemma insert_Location_done (l : Location.t) (d d' : db) :
  insert_Location l d = Done d' ->
  Location d' !! Location.location_id l = Some l.
Proof.
  unfold insert_Location. repeat case_decide; try done.
  intros [= <-]. simpl. by rewrite lookup_insert_eq.
Qed.

Lemma insert_Inventory_done (i : InventoryItem.t) (d d' : db) :
  insert_Inventory i d = Done d' ->
  Inventory d' !! InventoryItem.asset_id i = Some i.
Proof.
  unfold insert_Inventory. repeat case_decide; try done.
  intros [= <-]. simpl. by rewrite lookup_insert_eq.
Qed.

Lemma insert_InventoryAudit_done (row : Z -> Audit.t) (d d' : db) :
  insert_InventoryAudit row d = Done d' ->
  InventoryAudit d' !! Audit.audit_id (row (next_audit_id d))
  = Some (row (next_audit_id d)).
Proof.
  unfold insert_InventoryAudit. case_decide; [|done].
  intros [= <-]. simpl. by rewrite lookup_insert_eq.
Qed.

(** The shape of the three create methods: when one returns, its INSERT
    has run on the store the allocator left. *)
Lemma create_returns {A} (params : string -> string -> list pyval)
    (stmt : string -> string -> db -> result) (entity : string -> string -> A)
    (w w' : world) (a : A) :
  (let* now := iso_now in
   let* id := generate_global_id in
   execute (params now id) (stmt now id) ;;; commit ;;; ret (entity now id)) w
  = (Return a, w') ->
  exists id d d',
    a = entity (Time.isoformat (Time.replace_microsecond 0 (clock w))) id
    /\ stmt (Time.isoformat (Time.replace_microsecond 0 (clock w))) id d = Done d'
    /\ store w' = d'.
Proof.
  unfold bind, iso_now, commit, ret.
  destruct (generate_global_id w) as [[id|e|] w1]; [|done..].
  destruct (execute _ _ w1) as [[[]|e|] w2] eqn:Hexec; [|done..].
  intros [= <- <-]. apply execute_returns in Hexec as (d' & Hd' & ->).
  by exists id, (store w1), d'.
Qed.

Lemma create_vehicle_stamps (w w' : world) (v : Vehicle.t)
    (vehicle_type vehicle_name vin : string)
    (vehicle_number mileage last_service : Z) :
  create_vehicle vehicle_type vehicle_name vin vehicle_number mileage
                 last_service w = (Return v, w') ->
  Vehicle.created_at v = Frame.now_of w /\ Vehicle.updated_at v = Frame.now_of w
  /\ Vehicle (store w') !! Vehicle.vehicle_id v = Some v.
Proof.
  intros Hret. unfold create_vehicle in Hret.
  apply (create_returns
           (fun now id => [PStr id; PStr vehicle_type; PStr vehicle_name;
                           PStr vin; PInt vehicle_number; PInt mileage;
                           PInt last_service; PStr now; PStr now])
           (fun now id => insert_Vehicle
                            (Vehicle.mk id vehicle_type vehicle_name vin
                               vehicle_number mileage last_service now now))
           (fun now id => Vehicle.mk id vehicle_type vehicle_name vin
                            vehicle_number mileage last_service now now))
    in Hret as (id & d & d' & -> & Hins & ->).
  apply insert_Vehicle_done in Hins. done.
Qed.

Lemma create_location_stamps (w w' : world) (l : Location.t) (side : string)
    (row bin : Z) (vehicle_id : option string) :
  create_location side row bin vehicle_id w = (Return l, w') ->
  Location.created_at l = Frame.now_of w /\ Location.updated_at l = Frame.now_of w
  /\ Location.last_audited_at l = None
  /\ Location (store w') !! Location.location_id l = Some l.
Proof.
  intros Hret. unfold create_location in Hret.
  apply (create_returns
           (fun now id => [PStr id; of_optional vehicle_id; PStr side; PInt row;
                           PInt bin; PStr now; PStr now; PNone])
           (fun now id => insert_Location
                            (Location.mk id vehicle_id side row bin now now None))
           (fun now id => Location.mk id vehicle_id side row bin now now None))
    in Hret as (id & d & d' & -> & Hins & ->).
  apply insert_Location_done in Hins. done.
Qed.

Lemma create_inventory_stamps (w w' : world) (i : InventoryItem.t)
    (description location_id : string) (consumable : bool)
    (manufacturer model serial_number : option string) :
  create_inventory description location_id consumable manufacturer model
                   serial_number w = (Return i, w') ->
  InventoryItem.created_at i = Frame.now_of w /\ InventoryItem.updated_at i = Frame.now_of w
  /\ Inventory (store w') !! InventoryItem.asset_id i = Some i.
Proof.
  intros Hret. unfold create_inventory in Hret.
  apply (create_returns
           (fun now id => [PStr id; PStr description; PStr location_id;
                           PInt (int_of_bool consumable);
                           of_optional manufacturer; of_optional model;
                           of_optional serial_number; PStr now; PStr now])
           (fun now id => insert_Inventory
                            (InventoryItem.mk id description location_id
                               (int_of_bool consumable) manufacturer model
                               serial_number now now))
           (fun now id => InventoryItem.mk id description location_id
                            (int_of_bool consumable) manufacturer model
                            serial_number now now))
    in Hret as (id & d & d' & -> & Hins & ->).
  apply insert_Inventory_done in Hins. done.
Qed.

Lemma update_vehicle_stamps (w w' : world) (vehicle_id : string) (v : Vehicle.t)
    (vehicle_type vehicle_name vin : option string)
    (vehicle_number mileage last_service : option Z) :
  Vehicle (store w) !! vehicle_id = Some v ->
  update_vehicle vehicle_id vehicle_type vehicle_name vin vehicle_number
                 mileage last_service w = (Return tt, w') ->
  exists v', Vehicle (store w') !! vehicle_id = Some v'
    /\ Vehicle.created_at v' = Vehicle.created_at v
    /\ (Vehicle.updated_at v' = Frame.now_of w
        \/ w' = w /\ vehicle_type = None /\ vehicle_name = None /\ vin = None
           /\ vehicle_number = None /\ mileage = None /\ last_service = None).
Proof.
  intros Hv. unfold update_vehicle.
  destruct vehicle_type as [ty|], vehicle_name as [nm|], vin as [vn|],
    vehicle_number as [n|], mileage as [m|], last_service as [sv|]; simpl;
    try (unfold bind at 1, iso_now; intros Hret;
         apply execute_commit_returns in Hret;
         rewrite (execute_update_Vehicle_on _ _ _ _ v Hv) in Hret;
         repeat case_match; try discriminate; injection Hret as <-; simpl;
         rewrite lookup_insert_eq; eexists; split; [done|];
         split; [done|by left]).
  intros [= <-]. exists v. split; [done|]. split; [done|]. by right.
Qed.

Lemma update_location_stamps (w w' : world) (location_id : string)
    (l : Location.t) (side : option string) (row bin : option Z)
    (vehicle_id last_audited_at : option string) :
  Location (store w) !! location_id = Some l ->
  update_location location_id side row bin vehicle_id last_audited_at w
  = (Return tt, w') ->
  exists l', Location (store w') !! location_id = Some l'
    /\ Location.created_at l' = Location.created_at l
    /\ (Location.updated_at l' = Frame.now_of w
        \/ w' = w /\ side = None /\ row = None /\ bin = None
           /\ vehicle_id = None /\ last_audited_at = None)
    /\ (is_Some last_audited_at -> Location.last_audited_at l' = last_audited_at).
Proof.
  intros Hl. unfold update_location.
  destruct side as [sd|], row as [r|], bin as [b|], vehicle_id as [vh|],
    last_audited_at as [au|]; simpl;
    try (unfold bind at 1, iso_now; intros Hret;
         apply execute_commit_returns in Hret;
         apply (execute_update_Location_on _ _ _ _ _ l Hl) in Hret as ->; simpl;
         rewrite lookup_insert_eq; eexists; split; [done|];
         split; [done|]; split; [by left|]; first [done | by intros [? [=]]]).
  intros [= <-]. exists l. split; [done|]. split; [done|].
  split; [by right|]. by intros [? [=]].
Qed.

Lemma update_inventory_stamps (w w' : world) (asset_id : string)
    (i : InventoryItem.t) (description location_id : option string)
    (consumable : option bool)
    (manufacturer model serial_number : option string) :
  Inventory (store w) !! asset_id = Some i ->
  update_inventory asset_id description location_id consumable manufacturer
                   model serial_number w = (Return tt, w') ->
  exists i', Inventory (store w') !! asset_id = Some i'
    /\ InventoryItem.created_at i' = InventoryItem.created_at i
    /\ (InventoryItem.updated_at i' = Frame.now_of w
        \/ w' = w /\ description = None /\ location_id = None
           /\ consumable = None /\ manufacturer = None /\ model = None
           /\ serial_number = None).
Proof.
  intros Hi. unfold update_inventory.
  destruct description as [ds|], location_id as [lc|], consumable as [[]|],
    manufacturer as [mf|], model as [md|], serial_number as [sn|]; simpl;
    try (unfold bind at 1, iso_now; intros Hret;
         apply execute_commit_returns in Hret;
         apply (execute_update_Inventory_on _ _ _ _ _ i Hi) in Hret as ->; simpl;
         rewrite lookup_insert_eq; eexists; split; [done|];
         split; [done|by left]).
  intros [= <-]. exists i. split; [done|]. split; [done|]. by right.
Qed.

Lemma record_audit_stamps (w w' : world) (audit_id : Z)
    (asset_id action : string)
    (from_location_id to_location_id notes user audited_at : option string) :
  record_audit asset_id action from_location_id to_location_id notes user
               audited_at w = (Return audit_id, w') ->
  exists a, InventoryAudit (store w') !! audit_id = Some a
    /\ Audit.audited_at a = Frame.audit_timestamp audited_at w.
Proof.
  unfold record_audit, bind, commit, ret.
  assert (timestamp_or_now audited_at w
          = (Return (Frame.audit_timestamp audited_at w), w)) as ->.
  { unfold timestamp_or_now, Frame.audit_timestamp, Frame.now_of, iso_now, ret.
    destruct audited_at as [s|]; [|done]. by destruct (String.eqb s ""). }
  destruct (execute _ _ w) as [[[]|e|] w2] eqn:Hexec; [|done..].
  intros [= <- <-]. apply execute_returns in Hexec as (d' & Hd' & ->).
  apply insert_InventoryAudit_done in Hd'. simpl in *. by eexists.
Qed.

End Stamps.

(** C9, as the code has it.  [created_at] and [updated_at] are the
    repository's: a create method stamps both with [iso_now()], an update
    that changes a row refreshes [updated_at] with it and keeps
    [created_at]; neither method has a parameter for them.  The audit
    timestamps are the caller's to give: [record_audit] stores the
    [audited_at] it is passed and reads the clock only when that is [None] or
    empty, and [update_location] stores the [last_audited_at] it is
    passed. *)
Theorem timestamps_assigned :
  (forall (w w' : Repo.world) (v : Vehicle.t)
          (vehicle_type vehicle_name vin : string)
          (vehicle_number mileage last_service : Z),
      Repo.create_vehicle vehicle_type vehicle_name vin vehicle_number mileage
                          last_service w = (Repo.Return v, w') ->
      Vehicle.created_at v = Frame.now_of w
      /\ Vehicle.updated_at v = Frame.now_of w
      /\ Store.Vehicle (Repo.store w') !! Vehicle.vehicle_id v = Some v)
  /\ (forall (w w' : Repo.world) (l : Location.t) (side : string)
             (row bin : Z) (vehicle_id : option string),
        Repo.create_location side row bin vehicle_id w = (Repo.Return l, w') ->
        Location.created_at l = Frame.now_of w
        /\ Location.updated_at l = Frame.now_of w
        /\ Location.last_audited_at l = None
        /\ Store.Location (Repo.store w') !! Location.location_id l = Some l)
  /\ (forall (w w' : Repo.world) (i : InventoryItem.t)
             (description location_id : string) (consumable : bool)
             (manufacturer model serial_number : option string),
        Repo.create_inventory description location_id consumable manufacturer
                              model serial_number w = (Repo.Return i, w') ->
        InventoryItem.created_at i = Frame.now_of w
        /\ InventoryItem.updated_at i = Frame.now_of w
        /\ Store.Inventory (Repo.store w') !! InventoryItem.asset_id i = Some i)
  /\ (forall (w w' : Repo.world) (vehicle_id : string) (v : Vehicle.t)
             (vehicle_type vehicle_name vin : option string)
             (vehicle_number mileage last_service : option Z),
        Store.Vehicle (Repo.store w) !! vehicle_id = Some v ->
        Repo.update_vehicle vehicle_id vehicle_type vehicle_name vin
                            vehicle_number mileage last_service w
        = (Repo.Return tt, w') ->
        exists v', Store.Vehicle (Repo.store w') !! vehicle_id = Some v'
          /\ Vehicle.created_at v' = Vehicle.created_at v
          /\ (Vehicle.updated_at v' = Frame.now_of w
              \/ w' = w /\ vehicle_type = None /\ vehicle_name = None
                 /\ vin = None /\ vehicle_number = None /\ mileage = None
                 /\ last_service = None))
  /\ (forall (w w' : Repo.world) (location_id : string) (l : Location.t)
             (side : option string) (row bin : option Z)
             (vehicle_id last_audited_at : option string),
        Store.Location (Repo.store w) !! location_id = Some l ->
        Repo.update_location location_id side row bin vehicle_id
                             last_audited_at w = (Repo.Return tt, w') ->
        exists l', Store.Location (Repo.store w') !! location_id = Some l'
          /\ Location.created_at l' = Location.created_at l
          /\ (Location.updated_at l' = Frame.now_of w
              \/ w' = w /\ side = None /\ row = None /\ bin = None
                 /\ vehicle_id = None /\ last_audited_at = None)
          /\ (is_Some last_audited_at ->
              Location.last_audited_at l' = last_audited_at))
  /\ (forall (w w' : Repo.world) (asset_id : string) (i : InventoryItem.t)
             (description location_id : option string)
             (consumable : option bool)
             (manufacturer model serial_number : option string),
        Store.Inventory (Repo.store w) !! asset_id = Some i ->
        Repo.update_inventory asset_id description location_id consumable
                              manufacturer model serial_number w
        = (Repo.Return tt, w') ->
        exists i', Store.Inventory (Repo.store w') !! asset_id = Some i'
          /\ InventoryItem.created_at i' = InventoryItem.created_at i
          /\ (InventoryItem.updated_at i' = Frame.now_of w
              \/ w' = w /\ description = None /\ location_id = None
                 /\ consumable = None /\ manufacturer = None /\ model = None
                 /\ serial_number = None))
  /\ (forall (w w' : Repo.world) (audit_id : Z) (asset_id action : string)
             (from_location_id to_location_id notes user audited_at
                : option string),
        Repo.record_audit asset_id action from_location_id to_location_id
                          notes user audited_at w
        = (Repo.Return audit_id, w') ->
        exists a, Store.InventoryAudit (Repo.store w') !! audit_id = Some a
          /\ Audit.audited_at a = Frame.audit_timestamp audited_at w).
Proof.
  split; [exact create_vehicle_stamps|].
  split; [exact create_location_stamps|].
  split; [exact create_inventory_stamps|].
  split; [exact update_vehicle_stamps|].
  split; [exact update_location_stamps|].
  split; [exact update_inventory_stamps|exact record_audit_stamps].
Qed.

(** On the sample depot, a quarter of an hour later: a new item is stamped
    with the clock; an audit recorded without a timestamp gets the clock's,
    one recorded with a timestamp keeps the caller's. *)
Lemma timestamps_assigned_witness :
  let w := Repo.set_clock (Time.mk 2024 3 5 14 22 0 17) Sample.depot in
  (exists i w',
      Repo.create_inventory "rope" "00000008" false None None None w
      = (Repo.Return i, w')
      /\ InventoryItem.created_at i = "2024-03-05T14:22:00"
      /\ InventoryItem.updated_at i = "2024-03-05T14:22:00")
  /\ (exists a w',
        Repo.record_audit "00000004" "count" None None None None None w
        = (Repo.Return 1, w')
        /\ Store.InventoryAudit (Repo.store w') !! 1 = Some a
        /\ Audit.audited_at a = "2024-03-05T14:22:00")
  /\ (exists a w',
        Repo.record_audit "00000004" "count" None None None None
                          (Some "1999-12-31T23:59:59") w
        = (Repo.Return 1, w')
        /\ Store.InventoryAudit (Repo.store w') !! 1 = Some a
        /\ Audit.audited_at a = "1999-12-31T23:59:59").
Proof.
  intros w.
  destruct timestamps_assigned as (_ & _ & Hinv & _ & _ & _ & Haudit).
  split; [|split].
  - pose (r := Repo.create_inventory "rope" "00000008" false None None None w).
    assert (exists i, r.1 = Repo.Return i) as [i Hi]
      by (eexists; vm_compute; reflexivity).
    assert (r = (Repo.Return i, r.2)) as Hr
      by (destruct r as [o w']; simpl in *; by subst).
    exists i, r.2. split; [exact Hr|].
    destruct (Hinv w r.2 i "rope" "00000008" false None None None Hr)
      as (Hc & Hu & _).
    split; [rewrite Hc|rewrite Hu]; vm_compute; reflexivity.
  - pose (r := Repo.record_audit "00000004" "count" None None None None None w).
    assert (r = (Repo.Return 1, r.2)) as Hr by (vm_compute; reflexivity).
    destruct (Haudit w r.2 1 "00000004" "count" None None None None None Hr)
      as (a & Ha & Hat).
    exists a, r.2. split; [exact Hr|]. split; [exact Ha|].
    rewrite Hat. vm_compute; reflexivity.
  - pose (r := Repo.record_audit "00000004" "count" None None None None
                 (Some "1999-12-31T23:59:59") w).
    assert (r = (Repo.Return 1, r.2)) as Hr by (vm_compute; reflexivity).
    destruct (Haudit w r.2 1 "00000004" "count" None None None None
                (Some "1999-12-31T23:59:59") Hr) as (a & Ha & Hat).
    exists a, r.2. split; [exact Hr|]. split; [exact Ha|].
    rewrite Hat. vm_compute; reflexivity.
Defined.

(** C9 as stated fails: at 14:22 on 5 March 2024 the caller passes an
    [audited_at] of 1999, and that, not the clock's reading, is what the
    audit row holds. *)
Lemma record_audit_keeps_caller_timestamp :
  let w := Repo.set_clock (Time.mk 2024 3 5 14 22 0 17) Sample.depot in
  let r := Repo.record_audit "00000004" "count" None None None None
             (Some "1999-12-31T23:59:59") w in
  r.1 = Repo.Return 1
  /\ Audit.audited_at <$> Store.InventoryAudit (Repo.store r.2) !! 1
     = Some "1999-12-31T23:59:59"
  /\ (Repo.iso_now w).1 = Repo.Return "2024-03-05T14:22:00".
Proof. vm_compute. repeat split; reflexivity. Qed.

(** * Listing with LIMIT and OFFSET *)

Section Listing.
Import Store Repo.

Lemma limit_offset_zero {A} (offset : Z) (rows : list A) :
  Query.limit_offset 0 offset rows = [].
Proof. reflexivity. Qed.





Section View.
Variable numeric_of_text : string -> option Z.




End View.
End Listing.




(** * Backup files *)

Section Pruning.
Import Backup.

Lemma glob_elem (pattern : string) (dir : directory) (p : string) :
  p ∈ glob pattern dir <-> p ∈ entries dir /\ Text.fnmatch p pattern = true.
Proof.
  unfold glob. rewrite list_elem_of_In, filter_In, <- list_elem_of_In.
  by rewrite elem_of_elements.
Qed.

Lemma glob_NoDup (pattern : string) (dir : directory) :
  NoDup (glob pattern dir).
Proof.
  unfold glob. apply NoDup_ListNoDup, List.NoDup_filter, NoDup_ListNoDup.
  apply NoDup_elements.
Qed.

(** The loop removes, in order, the paths the system lets go of. *)
Lemma prune_loop_spec (paths : list string) :
  forall (removed : list string) (dir : directory),
    NoDup paths -> (forall p, p ∈ paths -> p ∈ entries dir) ->
    prune_loop paths removed dir
    = ((removed ++ filter (fun p => p ∉ stuck dir) paths)%list,
       mk (entries dir
             ∖ list_to_set (filter (fun p => p ∉ stuck dir) paths))
          (stuck dir)).
Proof.
  induction paths as [|p paths IH]; intros removed dir Hnd Hin; simpl.
  - rewrite app_nil_r. destruct dir as [e s]; simpl. f_equal. f_equal.
    set_solver.
  - apply NoDup_cons in Hnd as [Hp Hnd]. unfold unlink.
    assert (p ∈ entries dir) as Hpe by (apply Hin; left).
    destruct (decide (p ∈ stuck dir)) as [Hs|Hs].
    + rewrite decide_False by (by intros [_ ?]).
      rewrite filter_cons_False by (by intros ?).
      apply IH; [done|]. intros q Hq. apply Hin. by right.
    + rewrite decide_True by done.
      rewrite filter_cons_True by done.
      rewrite IH; [|done|].
      * simpl. rewrite <- app_assoc. simpl. f_equal. f_equal. set_solver.
      * intros q Hq. simpl. apply elem_of_difference. split.
        -- apply Hin. by right.
        -- intros ->%elem_of_singleton. done.
Qed.

End Pruning.

Section PruneBackups.
Import Backup.

Lemma prune_backups_eq (dir : directory) (max_backups : Z) :
  0 < max_backups ->
  let backups := sorted (glob "inventory_*.db" dir) in
  let oldest := take (length backups - Z.to_nat max_backups) backups in
  prune_backups dir max_backups
  = (filter (fun p => p ∉ stuck dir) oldest,
     mk (entries dir ∖ list_to_set (filter (fun p => p ∉ stuck dir) oldest))
        (stuck dir)).
Proof.
  intros Hpos backups oldest. unfold prune_backups. fold backups.
  rewrite (proj2 (Z.leb_gt max_backups 0) Hpos). simpl.
  destruct (Z.leb_spec (Z.of_nat (length backups)) max_backups) as [Hle|Hgt].
  - assert (oldest = []) as ->.
    { subst oldest. replace (length backups - Z.to_nat max_backups)%nat
        with 0%nat by lia. done. }
    rewrite filter_nil. destruct dir as [e s]; simpl. f_equal. f_equal.
    set_solver.
  - unfold all_but_last. fold oldest.
    apply (prune_loop_spec oldest [] dir).
    + assert (NoDup backups) as Hnd
        by (subst backups; rewrite sorted_Permutation; apply glob_NoDup).
      rewrite <- (take_drop (length backups - Z.to_nat max_backups) backups)
        in Hnd.
      by apply NoDup_app in Hnd as [? _].
    + intros p Hp. apply subseteq_take in Hp. subst backups.
      rewrite sorted_Permutation in Hp. by apply glob_elem in Hp as [? _].
Qed.

End PruneBackups.

(** What [prune_backups] removes and what it leaves. *)
Lemma prune_backups_spec
    (dir : Backup.directory) (max_backups : Z) :
  let backups := Backup.sorted (Backup.glob "inventory_*.db" dir) in
  let keep := Z.to_nat max_backups in
  let oldest := take (length backups - keep) backups in
  let newest := drop (length backups - keep) backups in
  let removed := (Backup.prune_backups dir max_backups).1 in
  let dir' := (Backup.prune_backups dir max_backups).2 in
  (max_backups <= 0 -> removed = [] /\ dir' = dir)
  /\ (0 < max_backups ->
        removed = filter (fun p => p ∉ Backup.stuck dir) oldest
        /\ ((forall p, p ∈ oldest -> p ∉ Backup.stuck dir) -> removed = oldest)
        /\ Backup.entries dir' = Backup.entries dir ∖ list_to_set removed
        /\ Backup.stuck dir' = Backup.stuck dir
        /\ length newest = Nat.min (length backups) keep
        /\ (forall a b, a ∈ oldest -> b ∈ newest ->
              String.leb a b = true /\ a <> b)
        /\ (forall b, b ∈ newest -> b ∈ Backup.entries dir'))
  /\ (forall p, p ∈ backups <->
                p ∈ Backup.entries dir
                /\ Text.fnmatch p "inventory_*.db" = true).
Proof.
  intros backups keep oldest newest removed dir'.
  assert (forall p, p ∈ backups <->
                    p ∈ Backup.entries dir
                    /\ Text.fnmatch p "inventory_*.db" = true) as Hglob.
  { intros p. subst backups. rewrite sorted_Permutation. apply glob_elem. }
  split; [|split; [|exact Hglob]].
  - intros Hle. subst removed dir'. unfold Backup.prune_backups.
    by rewrite (proj2 (Z.leb_le max_backups 0) Hle).
  - intros Hpos. subst removed dir'.
    rewrite (prune_backups_eq dir max_backups Hpos).
    fold backups. fold keep. fold oldest. simpl.
    assert (NoDup (oldest ++ newest)) as Hnd.
    { subst oldest newest. rewrite take_drop. subst backups.
      rewrite sorted_Permutation. apply glob_NoDup. }
    apply NoDup_app in Hnd as (_ & Hdisj & _).
    split; [done|]. split.
    { intros Hfree. clear -Hfree. induction oldest as [|p l IH]; [done|].
      rewrite filter_cons_True by (apply Hfree; left).
      f_equal. apply IH. intros q Hq. apply Hfree. by right. }
    split; [done|]. split; [done|]. split.
    { subst newest. rewrite length_drop. lia. }
    split.
    + intros a b Ha Hb. split.
      * apply Is_true_true.
        apply (StronglySorted_app_1_elem_of
                 (fun a b => Is_true (String.leb a b)) oldest newest);
          [|done..].
        subst oldest newest. rewrite take_drop. apply sorted_StronglySorted.
      * intros ->. by apply (Hdisj b).
    + intros b Hb. apply elem_of_difference. split.
      * apply Hglob. subst newest. by apply subseteq_drop in Hb.
      * intros Hr. apply elem_of_list_to_set in Hr.
        apply list_elem_of_filter in Hr as [_ Hr]. by apply (Hdisj b).
Qed.


(** * Backup names and the time they carry *)

Section NameOrder.
Local Open Scope N_scope.

Lemma compare_append (a b s t : string) :
  String.length a = String.length b ->
  String.compare (a +:+ s) (b +:+ t)
  = match String.compare a b with
    | Eq => String.compare s t
    | c => c
    end.
Proof.
  revert b. induction a as [|x a IH]; intros [|y b] Hlen; simpl in *;
    try done.
  destruct (Ascii.compare x y); [|done..]. apply IH. by injection Hlen.
Qed.

Lemma string_of_list_ascii_app (l k : list ascii) :
  string_of_list_ascii (l ++ k)
  = string_of_list_ascii l +:+ string_of_list_ascii k.
Proof. induction l as [|c l IH]; simpl; [done|]. by rewrite IH. Qed.

Lemma string_of_list_ascii_length (l : list ascii) :
  String.length (string_of_list_ascii l) = length l.
Proof. induction l as [|c l IH]; simpl; [done|]. by rewrite IH. Qed.

Lemma compare_add_l (a x y : N) : N.compare (a + x) (a + y) = N.compare x y.
Proof.
  destruct (N.compare_spec x y) as [->|H|H].
  - apply N.compare_refl.
  - apply N.compare_lt_iff. lia.
  - apply N.compare_gt_iff. lia.
Qed.

Lemma compare_digit (a b : N) :
  a < 10 -> b < 10 ->
  Ascii.compare (Text.digit a) (Text.digit b) = N.compare a b.
Proof.
  intros Ha Hb. unfold Ascii.compare. rewrite !N_of_digit by done.
  apply compare_add_l.
Qed.

(** Comparing two numbers is comparing their quotients by [q], then their
    remainders. *)
Lemma compare_div_mod (n m q : N) :
  0 < q ->
  N.compare n m
  = match N.compare (n / q) (m / q) with
    | Eq => N.compare (n mod q) (m mod q)
    | c => c
    end.
Proof.
  intros Hq.
  pose proof (N.Div0.div_mod n q) as Hn. pose proof (N.Div0.div_mod m q) as Hm.
  assert (n mod q < q) as Hnq by (apply N.mod_lt; lia).
  assert (m mod q < q) as Hmq by (apply N.mod_lt; lia).
  revert Hn Hm Hnq Hmq.
  generalize (n / q) (n mod q) (m / q) (m mod q). intros a r b r' -> -> Hr Hr'.
  destruct (N.compare_spec a b) as [->|Hab|Hab].
  - apply compare_add_l.
  - apply N.compare_lt_iff. nia.
  - apply N.compare_gt_iff. nia.
Qed.

Lemma compare_fixed (k : nat) (n m : N) :
  String.compare (string_of_list_ascii (Text.fixed k n))
                 (string_of_list_ascii (Text.fixed k m))
  = N.compare (n mod 10 ^ N.of_nat k) (m mod 10 ^ N.of_nat k).
Proof.
  revert n m. induction k as [|k IH]; intros n m.
  - simpl. by rewrite !N.mod_1_r.
  - cbn [Text.fixed]. rewrite !string_of_list_ascii_app.
    rewrite compare_append
      by (by rewrite !string_of_list_ascii_length, !fixed_length).
    rewrite IH. simpl string_of_list_ascii. cbn [String.compare].
    rewrite compare_digit by (apply N.mod_lt; lia).
    rewrite Nat2N.inj_succ, N.pow_succ_r'.
    rewrite (compare_div_mod (n mod (10 * 10 ^ N.of_nat k))
                             (m mod (10 * 10 ^ N.of_nat k)) 10) by lia.
    assert (forall x, (x mod (10 * 10 ^ N.of_nat k)) / 10
                      = (x / 10) mod 10 ^ N.of_nat k) as Hdiv.
    { intros x. rewrite N.Div0.mod_mul_r.
      rewrite (N.mul_comm 10 (_ mod _)), N.div_add by lia.
      rewrite (N.div_small (x mod 10) 10) by (apply N.mod_lt; lia). lia. }
    assert (forall x, (x mod (10 * 10 ^ N.of_nat k)) mod 10 = x mod 10) as Hmod.
    { intros x. rewrite N.Div0.mod_mul_r.
      rewrite (N.mul_comm 10 (_ mod _)), N.Div0.mod_add.
      apply N.Div0.mod_mod. }
    rewrite !Hdiv, !Hmod.
    destruct (N.compare _ _); [|done..].
    by destruct (N.compare (n mod 10) (m mod 10)).
Qed.

Lemma compare_format_0d (k : nat) (n m : N) :
  n < 10 ^ N.of_nat k -> m < 10 ^ N.of_nat k -> (1 <= k)%nat ->
  String.compare (Text.format_0d k n) (Text.format_0d k m) = N.compare n m.
Proof.
  intros Hn Hm Hk. rewrite !format_0d_fixed by done.
  rewrite compare_fixed. by rewrite !N.mod_small.
Qed.

Lemma format_0d_length (k : nat) (n : N) :
  n < 10 ^ N.of_nat k -> (1 <= k)%nat ->
  String.length (Text.format_0d k n) = k.
Proof.
  intros Hn Hk. rewrite format_0d_fixed by done.
  by rewrite string_of_list_ascii_length, fixed_length.
Qed.

Lemma append_length (s t : string) :
  String.length (s +:+ t) = (String.length s + String.length t)%nat.
Proof. induction s as [|c s IH]; simpl; [done|]. by rewrite IH. Qed.

Lemma compare_mul_add (x1 r1 x2 r2 : N) :
  r1 < 100 -> r2 < 100 ->
  N.compare (x1 * 100 + r1) (x2 * 100 + r2)
  = match N.compare x1 x2 with
    | Eq => N.compare r1 r2
    | c => c
    end.
Proof.
  intros H1 H2. destruct (N.compare_spec x1 x2) as [->|Hx|Hx].
  - apply compare_add_l.
  - apply N.compare_lt_iff. lia.
  - apply N.compare_gt_iff. lia.
Qed.

Lemma strftime_compact_length (d : Time.datetime) :
  Time.valid d -> String.length (Time.strftime_compact d) = 15%nat.
Proof.
  intros (Hy & Hmo & Hd & Hh & Hmi & Hs & _). unfold Time.strftime_compact.
  rewrite !append_length.
  rewrite (format_0d_length 4) by (simpl; lia).
  rewrite !(format_0d_length 2) by (simpl; lia). reflexivity.
Qed.

(** The compact timestamps of two valid times compare as the times do. *)
Lemma compare_strftime_compact (a b : Time.datetime) :
  Time.valid a -> Time.valid b ->
  String.compare (Time.strftime_compact a) (Time.strftime_compact b)
  = N.compare (Time.seconds_key a) (Time.seconds_key b).
Proof.
  intros (Hy & Hmo & Hd & Hh & Hmi & Hs & _)
         (Hy' & Hmo' & Hd' & Hh' & Hmi' & Hs' & _).
  unfold Time.strftime_compact, Time.seconds_key.
  rewrite !compare_mul_add by lia.
  rewrite compare_append
    by (by rewrite !(format_0d_length 4) by (simpl; lia)).
  rewrite (compare_format_0d 4) by (simpl; lia).
  destruct (N.compare (Time.year a) (Time.year b)); [|done..].
  rewrite compare_append
    by (by rewrite !(format_0d_length 2) by (simpl; lia)).
  rewrite (compare_format_0d 2) by (simpl; lia).
  destruct (N.compare (Time.month a) (Time.month b)); [|done..].
  rewrite compare_append
    by (by rewrite !(format_0d_length 2) by (simpl; lia)).
  rewrite (compare_format_0d 2) by (simpl; lia).
  destruct (N.compare (Time.day a) (Time.day b)); [|done..].
  rewrite (compare_append "_" "_") by done.
  change (String.compare "_" "_") with Eq. cbv iota.
  rewrite compare_append
    by (by rewrite !(format_0d_length 2) by (simpl; lia)).
  rewrite (compare_format_0d 2) by (simpl; lia).
  destruct (N.compare (Time.hour a) (Time.hour b)); [|done..].
  rewrite compare_append
    by (by rewrite !(format_0d_length 2) by (simpl; lia)).
  rewrite (compare_format_0d 2) by (simpl; lia).
  destruct (N.compare (Time.minute a) (Time.minute b)); [|done..].
  by rewrite (compare_format_0d 2) by (simpl; lia).
Qed.

(** Backup names sort as the times they were made at. *)
Lemma compare_backup_name (a b : Time.datetime) :
  Time.valid a -> Time.valid b ->
  String.compare (Backup.backup_name a) (Backup.backup_name b)
  = N.compare (Time.seconds_key a) (Time.seconds_key b).
Proof.
  intros Ha Hb. unfold Backup.backup_name.
  rewrite (compare_append "inventory_" "inventory_") by done.
  change (String.compare "inventory_" "inventory_") with Eq. cbv iota.
  rewrite compare_append by (by rewrite !strftime_compact_length).
  rewrite compare_strftime_compact by done.
  by destruct (N.compare _ _).
Qed.

Lemma leb_backup_name (a b : Time.datetime) :
  Time.valid a -> Time.valid b ->
  String.leb (Backup.backup_name a) (Backup.backup_name b)
  = (Time.seconds_key a <=? Time.seconds_key b).
Proof.
  intros Ha Hb. unfold String.leb, N.leb.
  by rewrite compare_backup_name.
Qed.

Lemma wild_many_cons (many one : ascii) (same : ascii -> ascii -> bool)
    (p s : list ascii) (c : ascii) :
  Text.wild many one same (many :: p) (c :: s)
  = Text.wild many one same p (c :: s)
    || Text.wild many one same (many :: p) s.
Proof. simpl. rewrite Ascii.eqb_refl. by destruct s. Qed.

Lemma wild_many_nil (many one : ascii) (same : ascii -> ascii -> bool)
    (p : list ascii) :
  Text.wild many one same (many :: p) [] = Text.wild many one same p [].
Proof. simpl. rewrite Ascii.eqb_refl. apply orb_false_r. Qed.

Lemma wild_many_suffix (many one : ascii) (same : ascii -> ascii -> bool)
    (p rest s : list ascii) :
  Text.wild many one same p rest = true ->
  Text.wild many one same (many :: p) (s ++ rest) = true.
Proof.
  intros Hp. induction s as [|c s IH].
  - destruct rest as [|r rest]; simpl app.
    + by rewrite wild_many_nil.
    + by rewrite wild_many_cons, Hp.
  - simpl app. rewrite wild_many_cons, IH. apply orb_true_r.
Qed.

Lemma list_ascii_of_string_app (s t : string) :
  list_ascii_of_string (s +:+ t)
  = (list_ascii_of_string s ++ list_ascii_of_string t)%list.
Proof. induction s as [|c s IH]; simpl; [done|]. by rewrite IH. Qed.

(** Every backup name matches the pattern [prune_backups] globs for. *)
Lemma fnmatch_backup_name (t : Time.datetime) :
  Text.fnmatch (Backup.backup_name t) "inventory_*.db" = true.
Proof.
  unfold Text.fnmatch, Backup.backup_name.
  rewrite !list_ascii_of_string_app.
  change (list_ascii_of_string "inventory_*.db")
    with (list_ascii_of_string "inventory_"
          ++ "*"%char :: list_ascii_of_string ".db")%list.
  generalize (list_ascii_of_string (Time.strftime_compact t)). intros stamp.
  cbn -[Text.wild app].
  assert (Text.wild "*" "?" Ascii.eqb
            ("*"%char :: list_ascii_of_string ".db")
            (stamp ++ list_ascii_of_string ".db") = true) as Hrest
    by (by apply wild_many_suffix).
  simpl. simpl in Hrest. exact Hrest.
Qed.

End NameOrder.

(** * One backup too many: retention 3, five files, a sixth arrives *)

Section FivePlusOne.
Import Backup.

Lemma string_leb_antisym :
  AntiSymm (=) (fun a b => Is_true (String.leb a b)).
Proof.
  intros a b Hab Hba. apply String.leb_antisym; by apply Is_true_true.
Qed.

Lemma backup_name_lt (a b : Time.datetime) :
  Time.valid a -> Time.valid b ->
  (Time.seconds_key a < Time.seconds_key b)%N ->
  Is_true (String.leb (backup_name a) (backup_name b))
  /\ backup_name a <> backup_name b.
Proof.
  intros Ha Hb Hlt. split.
  - apply Is_true_true. rewrite leb_backup_name by done. apply N.leb_le. lia.
  - intros Heq.
    pose proof (compare_backup_name a b Ha Hb) as Hc. rewrite Heq in Hc.
    assert (String.compare (backup_name b) (backup_name b) = Eq) as Hrefl.
    { pose proof (string_leb_refl (backup_name b)) as Hl.
      pose proof (String.compare_antisym (backup_name b) (backup_name b)) as Hs.
      destruct (String.compare (backup_name b) (backup_name b)); done. }
    rewrite Hrefl in Hc. symmetry in Hc. apply N.compare_eq_iff in Hc. lia.
Qed.

(** The sorted glob of a directory is the one sorted list of its matching
    entries. *)
Lemma sorted_glob_unique (dir : directory) (names : list string) :
  StronglySorted (fun a b => Is_true (String.leb a b)) names ->
  NoDup names ->
  (forall p, p ∈ names <->
             p ∈ entries dir /\ Text.fnmatch p "inventory_*.db" = true) ->
  sorted (glob "inventory_*.db" dir) = names.
Proof.
  intros Hsorted Hnd Hin.
  apply (@StronglySorted_unique _ (fun a b => Is_true (String.leb a b))
           string_leb_antisym);
    [apply sorted_StronglySorted|done|].
  rewrite sorted_Permutation.
  apply NoDup_Permutation; [apply glob_NoDup|done|].
  intros p. rewrite glob_elem. symmetry. apply Hin.
Qed.

Lemma run_backup_five_plus_one
    (t1 t2 t3 t4 t5 t6 : Time.datetime) (others : gset string) :
  Time.valid t1 -> Time.valid t2 -> Time.valid t3 -> Time.valid t4 ->
  Time.valid t5 -> Time.valid t6 ->
  (Time.seconds_key t1 < Time.seconds_key t2)%N ->
  (Time.seconds_key t2 < Time.seconds_key t3)%N ->
  (Time.seconds_key t3 < Time.seconds_key t4)%N ->
  (Time.seconds_key t4 < Time.seconds_key t5)%N ->
  (Time.seconds_key t5 < Time.seconds_key t6)%N ->
  (forall p, p ∈ others -> Text.fnmatch p "inventory_*.db" = false) ->
  run_backup t6 3
    (mk ({[backup_name t1; backup_name t2; backup_name t3; backup_name t4;
           backup_name t5]} ∪ others) ∅)
  = (backup_name t6,
     [backup_name t1; backup_name t2; backup_name t3],
     mk ({[backup_name t4; backup_name t5; backup_name t6]} ∪ others) ∅).
Proof.
  intros V1 V2 V3 V4 V5 V6 H12 H23 H34 H45 H56 Hothers.
  assert (forall a b, Time.valid a -> Time.valid b ->
            (Time.seconds_key a < Time.seconds_key b)%N ->
            Is_true (String.leb (backup_name a) (backup_name b))) as Hle
    by (intros a b ? ? ?; by apply backup_name_lt).
  assert (forall a b, Time.valid a -> Time.valid b ->
            (Time.seconds_key a < Time.seconds_key b)%N ->
            backup_name a <> backup_name b) as Hlt
    by (intros a b ? ? ?; by apply backup_name_lt).
  assert (forall t, backup_name t ∉ others) as Hnot.
  { intros t Hin. apply Hothers in Hin.
    by rewrite fnmatch_backup_name in Hin. }
  unfold run_backup, backup_database.
  set (dir1 := mk _ _).
  set (names := [backup_name t1; backup_name t2; backup_name t3;
                 backup_name t4; backup_name t5; backup_name t6]).
  assert (sorted (glob "inventory_*.db" dir1) = names) as Hsorted.
  { apply sorted_glob_unique.
    - subst names.
      repeat constructor; apply Hle; (done || lia).
    - subst names. repeat (apply NoDup_cons; split);
        [..|apply NoDup_nil_2];
        rewrite ?elem_of_cons, elem_of_nil;
        intros Hin; repeat destruct Hin as [Hin|Hin]; try done;
        revert Hin; apply Hlt; (done || lia).
    - intros p. subst names dir1. simpl.
      rewrite !elem_of_cons, elem_of_nil. split.
      + intros Hp. split; [set_solver|].
        repeat destruct Hp as [->|Hp]; try done; apply fnmatch_backup_name.
      + intros [Hp Hm]. apply elem_of_union in Hp as [Hp|Hp].
        * set_solver.
        * apply elem_of_union in Hp as [Hp|Hp]; [set_solver|].
          apply Hothers in Hp. congruence. }
  rewrite (prune_backups_eq dir1 3) by lia.
  rewrite Hsorted. subst names dir1. simpl.
  rewrite !filter_cons_True by set_solver. rewrite filter_nil.
  f_equal. f_equal. simpl.
  assert (backup_name t1 <> backup_name t4 /\ backup_name t1 <> backup_name t5
          /\ backup_name t1 <> backup_name t6 /\ backup_name t2 <> backup_name t4
          /\ backup_name t2 <> backup_name t5 /\ backup_name t2 <> backup_name t6
          /\ backup_name t3 <> backup_name t4 /\ backup_name t3 <> backup_name t5
          /\ backup_name t3 <> backup_name t6) as Hne
    by (repeat split; apply Hlt; (done || lia)).
  pose proof (Hnot t1). pose proof (Hnot t2). pose proof (Hnot t3).
  set_solver.
Qed.

End FivePlusOne.

(** C8, as the code has it.  [prune_backups] sorts the entries that match
    [inventory_*.db] by name and goes through all but the last
    [max_backups] of them, oldest name first: each one the system lets it
    unlink is removed and reported, each one whose unlink fails is skipped
    and stays.  With nothing in the way the removed files are exactly those
    oldest ones.  The [max_backups] files with the largest names always
    remain, and every removed name is smaller than every remaining one.  A
    [max_backups] of 0 or less removes nothing.  Backup names sort as the
    times in them do.  In particular, with a retention of 3, five backups
    in the directory and a sixth just made, the three oldest of the five are
    removed, and the two newest of the five remain with the new one. *)
Theorem prune_backups_removes_oldest :
  (forall (dir : Backup.directory) (max_backups : Z),
      let backups := Backup.sorted (Backup.glob "inventory_*.db" dir) in
      let keep := Z.to_nat max_backups in
      let oldest := take (length backups - keep) backups in
      let newest := drop (length backups - keep) backups in
      let removed := (Backup.prune_backups dir max_backups).1 in
      let dir' := (Backup.prune_backups dir max_backups).2 in
      (max_backups <= 0 -> removed = [] /\ dir' = dir)
      /\ (0 < max_backups ->
            removed = filter (fun p => p ∉ Backup.stuck dir) oldest
            /\ ((forall p, p ∈ oldest -> p ∉ Backup.stuck dir) ->
                removed = oldest)
            /\ Backup.entries dir' = Backup.entries dir ∖ list_to_set removed
            /\ Backup.stuck dir' = Backup.stuck dir
            /\ length newest = Nat.min (length backups) keep
            /\ (forall a b, a ∈ oldest -> b ∈ newest ->
                  String.leb a b = true /\ a <> b)
            /\ (forall b, b ∈ newest -> b ∈ Backup.entries dir'))
      /\ (forall p, p ∈ backups <->
                    p ∈ Backup.entries dir
                    /\ Text.fnmatch p "inventory_*.db" = true))
  /\ (forall a b : Time.datetime,
        Time.valid a -> Time.valid b ->
        String.leb (Backup.backup_name a) (Backup.backup_name b)
        = (Time.seconds_key a <=? Time.seconds_key b)%N)
  /\ (forall (t1 t2 t3 t4 t5 t6 : Time.datetime) (others : gset string),
        Time.valid t1 -> Time.valid t2 -> Time.valid t3 -> Time.valid t4 ->
        Time.valid t5 -> Time.valid t6 ->
        (Time.seconds_key t1 < Time.seconds_key t2)%N ->
        (Time.seconds_key t2 < Time.seconds_key t3)%N ->
        (Time.seconds_key t3 < Time.seconds_key t4)%N ->
        (Time.seconds_key t4 < Time.seconds_key t5)%N ->
        (Time.seconds_key t5 < Time.seconds_key t6)%N ->
        (forall p, p ∈ others -> Text.fnmatch p "inventory_*.db" = false) ->
        Backup.run_backup t6 3
          (Backup.mk
             ({[Backup.backup_name t1; Backup.backup_name t2;
                Backup.backup_name t3; Backup.backup_name t4;
                Backup.backup_name t5]} ∪ others) ∅)
        = (Backup.backup_name t6,
           [Backup.backup_name t1; Backup.backup_name t2;
            Backup.backup_name t3],
           Backup.mk
             ({[Backup.backup_name t4; Backup.backup_name t5;
                Backup.backup_name t6]} ∪ others) ∅)).
Proof.
  split; [exact prune_backups_spec|].
  split; [exact leb_backup_name|exact run_backup_five_plus_one].
Qed.

(** On the sample archive: the backup made at noon on 5 March comes sixth,
    and the backups of the nights of 1, 2 and 3 March go. *)
Lemma prune_backups_removes_oldest_witness :
  Backup.run_backup Sample.noon 3 Sample.archive
  = ("inventory_20240305_140709.db",
     ["inventory_20240301_020000.db"; "inventory_20240302_020000.db";
      "inventory_20240303_020000.db"],
     Backup.mk
       ({["inventory_20240304_020000.db"; "inventory_20240305_020000.db";
          "inventory_20240305_140709.db"]} ∪ {["notes.txt"]}) ∅).
Proof.
  destruct prune_backups_removes_oldest as (_ & _ & Hsix).
  apply (Hsix (Sample.night 1) (Sample.night 2) (Sample.night 3)
              (Sample.night 4) (Sample.night 5) Sample.noon {["notes.txt"]});
    try (unfold Time.valid; simpl; lia); try (vm_compute; reflexivity).
  intros p Hp. apply elem_of_singleton in Hp. rewrite Hp. reflexivity.
Defined.

(** C8 as stated fails twice.  With a retention of 3, five backups and a
    sixth just made, three files are removed, not two: the backup of the
    night of 3 March goes as well.  And a backup the system refuses to
    unlink is not removed although it is the oldest beyond the three
    newest: on the protected archive nothing but the second oldest goes. *)
Lemma prune_backups_removes_three_or_skips :
  (Backup.run_backup Sample.noon 3 Sample.archive).1.2
  = ["inventory_20240301_020000.db"; "inventory_20240302_020000.db";
     "inventory_20240303_020000.db"]
  /\ (Backup.prune_backups Sample.protected_archive 3).1
     = ["inventory_20240302_020000.db"]
  /\ bool_decide
       ("inventory_20240301_020000.db"
          ∈ Backup.entries (Backup.prune_backups Sample.protected_archive 3).2)
     = true.
Proof. vm_compute. repeat split; reflexivity. Qed.
